(* ===================================================================== *)
(* Sheet splitter (app/src/assets/icons/split-icons.py)                  *)
(*                                                                       *)
(* A shallow embedding of the icon-sheet splitter and the properties     *)
(* its specification states about it.                                    *)
(*                                                                       *)
(* Conventions of the model                                              *)
(*  - a Python `str` is a list of Unicode code points (`str := list N`); *)
(*  - the three loop variables of the script are the fields of `state`;  *)
(*  - the effects of a run (files opened for writing, lines printed) are *)
(*    recorded in order as a list of `event`s; `fs_after` replays the    *)
(*    writes on a file system, a finite map from path strings to text;   *)
(*  - exceptions the script itself could raise (`str.index`, indexing a  *)
(*    list, `Path / None`) are values of `exn`; the operating system is  *)
(*    assumed to accept every `open(..., 'w')`.                          *)
(* ===================================================================== *)

From Stdlib Require Import NArith Ascii String.
From stdpp Require Import base option list gmap.

Open Scope N_scope.

(* --------------------------------------------------------------------- *)
(* 1. Text                                                               *)
(* --------------------------------------------------------------------- *)

Module Text.

(** A Python string: the sequence of its code points. *)
Definition str : Type := list N.

(** The code points of an ASCII literal. *)
Definition lit (s : string) : str :=
  List.map N_of_ascii (list_ascii_of_string s).

Definition NL : N := 10.

(** [s.startswith(p)] *)
Fixpoint starts_with (p s : str) : bool :=
  match p, s with
  | [], _ => true
  | _ :: _, [] => false
  | a :: p', b :: s' => if a =? b then starts_with p' s' else false
  end.

(** [s.find(sub)]: the least index at which [sub] occurs, if any. *)
Fixpoint str_find (sub s : str) : option nat :=
  if starts_with sub s then Some 0%nat
  else match s with
       | [] => None
       | _ :: s' => S <$> str_find sub s'
       end.

(** [sub in s] *)
Definition str_in (sub s : str) : bool :=
  match str_find sub s with Some _ => true | None => false end.

(** [s.split(sep)] for a one-character separator: never the empty list. *)
Fixpoint split_on (sep : N) (s : str) : list str :=
  match s with
  | [] => [[]]
  | c :: s' =>
      if c =? sep then [] :: split_on sep s'
      else match split_on sep s' with
           | [] => [[c]]
           | w :: ws => (c :: w) :: ws
           end
  end.

(** [sep.join(xs)] *)
Fixpoint join_with (sep : str) (xs : list str) : str :=
  match xs with
  | [] => []
  | [x] => x
  | x :: xs' => x ++ sep ++ join_with sep xs'
  end.

End Text.

Import Text.

(* --------------------------------------------------------------------- *)
(* 2. The regular expression of the marker comment                       *)
(* --------------------------------------------------------------------- *)

Module Regex.

(** Character classes the pattern uses. *)
Inductive cls :=
| CChar (c : N)    (* a literal character *)
| CAny             (* .   any character but a newline *)
| CSpace.          (* \s  Unicode white space *)

(** White space as the [re] module sees it in a [str] pattern
    (the characters for which [str.isspace] holds). *)
Definition is_space (c : N) : bool :=
  ((9 <=? c) && (c <=? 13)) || ((28 <=? c) && (c <=? 32))
  || (c =? 133) || (c =? 160) || (c =? 5760)
  || ((8192 <=? c) && (c <=? 8202))
  || (c =? 8232) || (c =? 8233) || (c =? 8239) || (c =? 8287)
  || (c =? 12288).

Definition cls_match (k : cls) (c : N) : bool :=
  match k with
  | CChar a => a =? c
  | CAny => negb (c =? NL)
  | CSpace => is_space c
  end.

(** The nodes of a pattern without alternation: single characters,
    greedy repetitions of a class, and the brackets of group 1. *)
Inductive node :=
| One (k : cls)
| Star (k : cls)
| Plus (k : cls)
| GOpen
| GClose.

Section Backtrack.
Context {R : Type}.

(** Greedy [k*] followed by the continuation [cont]: take as many
    characters as possible, give them back one at a time. *)
Fixpoint star (k : cls) (cont : str → option R) (s : str) : option R :=
  match s with
  | c :: s' =>
      if cls_match k c then
        match star k cont s' with
        | Some r => Some r
        | None => cont s
        end
      else cont s
  | [] => cont []
  end.

Definition one (k : cls) (cont : str → option R) (s : str) : option R :=
  match s with
  | c :: s' => if cls_match k c then cont s' else None
  | [] => None
  end.
End Backtrack.

(** [match_here p s g]: match pattern [p] at the start of [s]; [g] is the
    text remaining when group 1 was opened.  The result is the text of
    group 1 ([None] inside: the group did not take part). *)
Fixpoint match_here (p : list node) (s : str) (g : option str)
  : option (option str) :=
  match p with
  | [] => Some g
  | One k :: p' => one k (λ s', match_here p' s' g) s
  | Star k :: p' => star k (λ s', match_here p' s' g) s
  | Plus k :: p' => one k (star k (λ s', match_here p' s' g)) s
  | GOpen :: p' => match_here p' s (Some s)
  | GClose :: p' =>
      match_here p' s
        ((λ s0, take (length s0 - length s) s0) <$> g)
  end.

(** [re.search]: the match at the leftmost position that has one. *)
Fixpoint search (p : list node) (s : str) : option (option str) :=
  match match_here p s None with
  | Some r => Some r
  | None => match s with
            | [] => None
            | _ :: s' => search p s'
            end
  end.

Definition chars (s : string) : list node :=
  List.map (λ c, One (CChar c)) (lit s).

End Regex.

(* --------------------------------------------------------------------- *)
(* 3. Paths (pathlib, POSIX flavour)                                     *)
(* --------------------------------------------------------------------- *)

Module Path.

Definition SLASH : N := 47.

(** A pure path: its root ([], [/] or [//]) and its components. *)
Record path := { root : str; parts : list str }.

Definition DOT : str := Eval cbv in lit ".".
Definition DOTDOT : str := Eval cbv in lit "..".

Definition str_eqb (a b : str) : bool := bool_decide (a = b).

(** [posixpath.splitroot] *)
Definition splitroot (s : str) : str * str :=
  match s with
  | 47 :: 47 :: 47 :: _ => ([SLASH], drop 1 s)
  | 47 :: 47 :: r => ([SLASH; SLASH], r)
  | 47 :: r => ([SLASH], r)
  | _ => ([], s)
  end.

(** The components of a relative part: split on the separator, without
    the empty components and the [.] components. *)
Definition parse_parts (rel : str) : list str :=
  List.filter (λ x, negb (str_eqb x []) && negb (str_eqb x DOT))
              (split_on SLASH rel).

Definition parse (s : str) : path :=
  let '(r, rel) := splitroot s in
  {| root := r; parts := parse_parts rel |}.

(** [p / key]: an anchored [key] replaces [p]. *)
Definition truediv (p : path) (key : str) : path :=
  let k := parse key in
  match root k with
  | [] => {| root := root p; parts := parts p ++ parts k |}
  | _ => k
  end.

(** [str(p)], the string [open] receives. *)
Definition path_str (p : path) : str :=
  match root p, parts p with
  | [], [] => DOT
  | r, ps => r ++ join_with [SLASH] ps
  end.

(** Lexical resolution of [..] components against the components
    before them; at the top there is nothing to leave. *)
Fixpoint resolve (stack ps : list str) : list str :=
  match ps with
  | [] => rev stack
  | x :: ps' =>
      if str_eqb x DOTDOT then resolve (tail stack) ps'
      else resolve (x :: stack) ps'
  end.

Fixpoint proper_prefix (a b : list str) : bool :=
  match a, b with
  | [], _ :: _ => true
  | x :: a', y :: b' => str_eqb x y && proper_prefix a' b'
  | _, _ => false
  end.

(** [p] names a file below the directory [d]. *)
Definition inside (d p : path) : bool :=
  str_eqb (root d) (root p)
  && proper_prefix (resolve [] (parts d)) (resolve [] (parts p)).

End Path.

Import Regex Path.

(* --------------------------------------------------------------------- *)
(* 4. The script                                                         *)
(* --------------------------------------------------------------------- *)

(** r'<!--\s*(.+\.svg)\s*-->' *)
Definition MARKER : list node :=
  Eval cbv in
    chars "<!--" ++ [Star CSpace; GOpen; Plus CAny] ++ chars ".svg"
    ++ [GClose; Star CSpace] ++ chars "-->".

Definition SVG_OPEN : str := Eval cbv in lit "<svg".
Definition SVG_CLOSE : str := Eval cbv in lit "</svg>".
Definition DOT_SVG : str := Eval cbv in lit ".svg".
Definition CREATED : str := Eval cbv in lit "Created: ".
Definition DONE_MSG : str :=
  Eval cbv in NL :: lit "All icons extracted successfully!".

(** [filename_match = re.search(MARKER, line)] with [group(1)] taken:
    [None] when the line has no marker comment. *)
Definition filename_match (line : str) : option str :=
  match search MARKER line with
  | Some (Some name) => Some name
  | _ => None
  end.

(** Exceptions the statements of the loop body can raise by themselves. *)
Inductive exn :=
| ValueError     (* str.index: substring not found *)
| IndexError     (* list index out of range *)
| TypeError.     (* Path / None *)

(** A computation that returns or raises. *)
Definition res (A : Type) : Type := exn + A.

Definition ret {A} (a : A) : res A := inr a.
Definition raise {A} (e : exn) : res A := inl e.

#[export] Instance res_bind : MBind res :=
  λ A B f m, match m with inl e => inl e | inr a => f a end.

(** The loop variables. *)
Record state := {
  current_filename : option str;
  current_svg : list str;
  in_svg : bool
}.

Definition init : state :=
  {| current_filename := None; current_svg := []; in_svg := false |}.

(** What a run does to the outside, in order. *)
Inductive event :=
| EWrite (p : path) (content : str)    (* open(p, 'w') and f.write(content) *)
| EPrint (s : str).                    (* print(s) *)

(** [line.index(sub)] *)
Definition str_index (sub s : str) : res nat :=
  match str_find sub s with
  | Some i => ret i
  | None => raise ValueError
  end.

(** [xs[0]] *)
Definition item0 (xs : list str) : res str :=
  match xs with
  | x :: _ => ret x
  | [] => raise IndexError
  end.

(** [output_dir / current_filename] *)
Definition output_path (output_dir : path) (name : option str) : res path :=
  match name with
  | Some n => ret (truediv output_dir n)
  | None => raise TypeError
  end.

(** [f'Created: {current_filename}']; formatting [None] gives its name. *)
Definition created (name : option str) : str :=
  CREATED ++ match name with Some n => n | None => lit "None" end.

(** Truth value of [current_filename] in a condition. *)
Definition truthy (name : option str) : bool :=
  match name with
  | Some (_ :: _) => true
  | _ => false
  end.

Section Splitter.

Variable output_dir : path.

(** The four statements that close a block: write the file, report it,
    forget the file name and the buffer ([in_svg] is already false). *)
Definition finish (name : option str) (svg_content : str)
  : res (state * list event) :=
  p ← output_path output_dir name ;
  ret ({| current_filename := None; current_svg := []; in_svg := false |},
       [EWrite p svg_content; EPrint (created name)]).

(** One iteration of [for line in lines]. *)
Definition step (st : state) (line : str) : res (state * list event) :=
  match filename_match line with
  | Some name =>
      (* a marker line: always ends in [continue] *)
      if str_in SVG_OPEN line then
        svg_start ← str_index SVG_OPEN line ;
        let buf := [drop svg_start line] in
        if str_in SVG_CLOSE line then
          svg_content ← item0 buf ;
          finish (Some name) svg_content
        else
          ret ({| current_filename := Some name; current_svg := buf;
                  in_svg := true |}, [])
      else
        ret ({| current_filename := Some name;
                current_svg := current_svg st;
                in_svg := in_svg st |}, [])
  | None =>
      if str_in SVG_OPEN line && truthy (current_filename st)
         && negb (in_svg st) then
        let buf := [line] in
        if str_in SVG_CLOSE line then
          finish (current_filename st) (join_with [NL] buf)
        else
          ret ({| current_filename := current_filename st;
                  current_svg := buf; in_svg := true |}, [])
      else if in_svg st then
        let buf := current_svg st ++ [line] in
        if str_in SVG_CLOSE line then
          finish (current_filename st) (join_with [NL] buf)
        else
          ret ({| current_filename := current_filename st;
                  current_svg := buf; in_svg := true |}, [])
      else
        ret (st, [])
  end.

(** The loop: the events so far, and the final state or the exception
    that ended it. *)
Fixpoint loop (st : state) (lines : list str) : list event * res state :=
  match lines with
  | [] => ([], ret st)
  | line :: rest =>
      match step st line with
      | inl e => ([], raise e)
      | inr (st', evs) =>
          let '(evs', r) := loop st' rest in (evs ++ evs', r)
      end
  end.

(** The whole script on the text of [sheets.svg]: the events, and the
    exception if one ended the run. *)
Definition main (content : str) : list event * option exn :=
  let lines := split_on NL content in
  match loop init lines with
  | (evs, inl e) => (evs, Some e)
  | (evs, inr _) => (evs ++ [EPrint DONE_MSG], None)
  end.

End Splitter.

(** The file system: the text of each file, by the path string given to
    [open]. Mode ['w'] truncates: the new text replaces the old. *)
Definition apply_event (fs : gmap str str) (ev : event) : gmap str str :=
  match ev with
  | EWrite p content => <[path_str p := content]> fs
  | EPrint _ => fs
  end.

Definition fs_after (fs : gmap str str) (evs : list event) : gmap str str :=
  foldl apply_event fs evs.

(** The lines a run prints. *)
Definition printed (evs : list event) : list str :=
  omap (λ ev, match ev with EPrint s => Some s | EWrite _ _ => None end) evs.

(** The files a run writes: path and text, in order. *)
Definition written (evs : list event) : list (path * str) :=
  omap (λ ev, match ev with EWrite p c => Some (p, c) | EPrint _ => None end) evs.

(** A directory for the examples. *)
Definition ICONS : path := Eval cbv in parse (lit "/srv/app/src/assets/icons").

(** [s] between double quotes. *)
Definition quoted (s : str) : str := 34 :: s ++ [34].

(** The spec's end-to-end example. *)
Definition sheet_example : str :=
  join_with [NL]
    [lit "<!-- a.svg -->";
     lit "<svg x=" ++ quoted (lit "1") ++ lit "><path/></svg>";
     lit "<!-- b.svg --><svg x=" ++ quoted (lit "2") ++ lit ">";
     lit "<path/>";
     lit "</svg>"].

(* --------------------------------------------------------------------- *)
(* 5. Vocabulary of the properties                                       *)
(* --------------------------------------------------------------------- *)

(** The events of one written block. *)
Definition emit (output_dir : path) (b : str * str) : list event :=
  [EWrite (truediv output_dir b.1) b.2; EPrint (CREATED ++ b.1)].

(** A file name taken from a marker comment of one of the lines [L]. *)
Definition captured (L : list str) (n : str) : Prop :=
  ∃ line, line ∈ L ∧ filename_match line = Some n.

(** What holds of the loop variables between two lines of [L]. *)
Record good (L : list str) (st : state) : Prop := {
  good_name : ∀ n, current_filename st = Some n → captured L n;
  good_open : in_svg st = true → is_Some (current_filename st);
  good_buf : in_svg st = false → current_svg st = []
}.

(** The text the last write to the file [k] leaves in it, if [evs] writes
    to [k] at all. *)
Fixpoint last_write (k : str) (evs : list event) : option str :=
  match evs with
  | [] => None
  | ev :: evs' =>
      match last_write k evs' with
      | Some c => Some c
      | None =>
          match ev with
          | EWrite p c => if decide (path_str p = k) then Some c else None
          | EPrint _ => None
          end
      end
  end.

(** The text from the opening tag through the closing tag that follows it,
    in the spec's words for a block on one line: what comes before the
    opening tag and what comes after the closing tag are left out. *)
Definition tag_to_tag (line : str) : option str :=
  match str_find SVG_OPEN line with
  | Some i =>
      let from_tag := drop i line in
      match str_find SVG_CLOSE from_tag with
      | Some j => Some (take (j + length SVG_CLOSE) from_tag)
      | None => None
      end
  | None => None
  end.

Definition is_marker (l : str) : bool :=
  match filename_match l with Some _ => true | None => false end.

Definition has_open (l : str) : bool := str_in SVG_OPEN l.
Definition has_close (l : str) : bool := str_in SVG_CLOSE l.

(** How a block goes on after its first line. *)
Inductive tail :=
| OneLine                                  (* it closes on its first line *)
| More (body : list str) (last : str).     (* it closes on [last] *)

(** The pieces of a well-formed sheet. *)
Inductive segment :=
| Other (l : str)
    (* a line outside every pair *)
| OnMarker (m : str) (t : tail)
    (* a marker line on which the block opens *)
| AfterMarker (m : str) (gap : list str) (first : str) (t : tail).
    (* a marker line, and the block opening on a later line *)

Definition tail_lines (t : tail) : list str :=
  match t with
  | OneLine => []
  | More body last => body ++ [last]
  end.

Definition seg_lines (sg : segment) : list str :=
  match sg with
  | Other l => [l]
  | OnMarker m t => m :: tail_lines t
  | AfterMarker m gap first t => m :: gap ++ first :: tail_lines t
  end.

Definition tail_ok (first : str) (t : tail) : bool :=
  match t with
  | OneLine => has_close first
  | More body last =>
      negb (has_close first)
      && forallb (λ l, negb (is_marker l) && negb (has_close l)) body
      && negb (is_marker last) && has_close last
  end.

(** Well-formedness of a piece: markers only where a pair starts, the
    opening tag first on the line that opens the block, the closing tag
    first on the line that closes it. *)
Definition seg_ok (sg : segment) : bool :=
  match sg with
  | Other l => negb (is_marker l)
  | OnMarker m t => is_marker m && has_open m && tail_ok m t
  | AfterMarker m gap first t =>
      is_marker m && negb (has_open m)
      && forallb (λ l, negb (is_marker l) && negb (has_open l)) gap
      && negb (is_marker first) && has_open first && tail_ok first t
  end.

(** The line from its first opening tag on. *)
Definition from_tag (l : str) : str :=
  match str_find SVG_OPEN l with
  | Some i => drop i l
  | None => l
  end.

(** The text of a block: its lines, joined by newlines. *)
Definition block_text (first : str) (t : tail) : str :=
  join_with [NL] (first :: tail_lines t).

(** The file name and the block text of a pair. *)
Definition seg_block (sg : segment) : option (str * str) :=
  match sg with
  | Other _ => None
  | OnMarker m t =>
      name ← filename_match m; Some (name, block_text (from_tag m) t)
  | AfterMarker m _ first t =>
      name ← filename_match m; Some (name, block_text first t)
  end.

Definition is_pair (sg : segment) : bool :=
  match sg with Other _ => false | _ => true end.

(** The number of marker/block pairs of a sheet. *)
Definition pairs (sgs : list segment) : nat :=
  length (List.filter is_pair sgs).

(** The pairs of a sheet: file name and block text, in order. *)
Definition blocks (sgs : list segment) : list (str * str) :=
  omap seg_block sgs.

(** The file a block goes to. *)
Definition block_file (output_dir : path) (b : str * str) : str :=
  path_str (truediv output_dir b.1).

(** A sheet with its wrapping tag and the two pairs of the spec's
    example. *)
Definition sheet_segments : list segment :=
  [Other (lit "<svg xmlns=1>");
   AfterMarker (lit "<!-- a.svg -->") []
     (lit "<svg x=" ++ quoted (lit "1") ++ lit "><path/></svg>") OneLine;
   OnMarker (lit "<!-- b.svg --><svg x=" ++ quoted (lit "2") ++ lit ">")
     (More [lit "<path/>"] (lit "</svg>"));
   Other (lit "</svg>")].

(** What the loop has done after the lines [ls]. *)
Definition events (output_dir : path) (ls : list str) : list event :=
  (loop output_dir init ls).1.

(** The loop variables after the lines [ls]. *)
Definition state_after (output_dir : path) (ls : list str) : res state :=
  (loop output_dir init ls).2.

(** Line number [i] of the source closes the block [b]: the iteration on
    that line, in the state the lines before it lead to, writes the file
    of [b] and prints its [Created] line. *)
Definition closes_at (output_dir : path) (lines : list str) (i : nat)
    (b : str * str) : Prop :=
  ∃ st line,
    lines !! i = Some line
    ∧ state_after output_dir (take i lines) = inr st
    ∧ step output_dir st line = inr (init, emit output_dir b).

(** The iteration on line number [i] of the source writes nothing and
    prints nothing. *)
Definition silent_at (output_dir : path) (lines : list str) (i : nat) : Prop :=
  ∃ st line st',
    lines !! i = Some line
    ∧ state_after output_dir (take i lines) = inr st
    ∧ step output_dir st line = inr (st', []).

(** In the spec's words: an opening tag has been seen without yet seeing
    its closing tag, on the same line or on a later one. *)
Definition spec_open_unclosed (ls : list str) : Prop :=
  ∃ i l, ls !! i = Some l ∧ has_open l = true
         ∧ ∀ j l', (i ≤ j)%nat → ls !! j = Some l' → has_close l' = false.

(** A marker line has been seen, and nothing was written on that line or
    after it. *)
Definition pending (output_dir : path) (ls : list str) : Prop :=
  ∃ pre m post,
    ls = pre ++ m :: post ∧ is_marker m = true
    ∧ events output_dir ls = events output_dir pre.

(** A marker line has been seen, an opening tag on that line or after it,
    and nothing was written on the marker line or after it. *)
Definition opened (output_dir : path) (ls : list str) : Prop :=
  ∃ pre m post,
    ls = pre ++ m :: post ∧ is_marker m = true
    ∧ (∃ l, l ∈ m :: post ∧ has_open l = true)
    ∧ events output_dir ls = events output_dir pre.

(** The delimiters of a comment. *)
Definition COMMENT_OPEN : str := Eval cbv in lit "<!--".
Definition COMMENT_CLOSE : str := Eval cbv in lit "-->".

(** Text made of white space only. *)
Definition spaces (ws : str) : Prop := Forall (λ c, is_space c = true) ws.

(** The number of lines that pass the test [f]. *)
Definition count_lines (f : str → bool) (ls : list str) : nat :=
  length (List.filter f ls).

(** The text after the stem of a comment, and what follows the comment. *)
Definition after_stem (ws' post : str) : str :=
  DOT_SVG ++ ws' ++ COMMENT_CLOSE ++ post.

(** A line of a written text comes from the source: it is one of the
    lines [L], or one of them from its first opening tag on. *)
Definition from_source (L : list str) (x : str) : Prop :=
  ∃ l, l ∈ L ∧ (x = l ∨ x = from_tag l).

(** The lines of a block: lines from the source, the first of them with
    the opening tag. *)
Definition block_lines (L : list str) (buf : list str) : Prop :=
  ∃ x rest, buf = x :: rest ∧ has_open x = true ∧ Forall (from_source L) buf.

(** What holds of the loop variables, buffer included, between two lines
    of [L]. *)
Record tidy (L : list str) (st : state) : Prop := {
  tidy_good : good L st;
  tidy_block : in_svg st = true → block_lines L (current_svg st)
}.

(** 1 when a file name is pending, 0 otherwise. *)
Definition named (st : state) : nat :=
  match current_filename st with Some _ => 1 | None => 0 end.

(* ===================================================================== *)
(* Properties                                                            *)
(* ===================================================================== *)

(* --------------------------------------------------------------------- *)
(* 6. Examples                                                           *)
(* --------------------------------------------------------------------- *)

Lemma fm_example_1 :
  filename_match (lit "<!-- 24x24-plus.svg -->") = Some (lit "24x24-plus.svg").
Proof. vm_compute. reflexivity. Qed.

Lemma fm_example_2 :
  filename_match (lit "x <!--a.svg--> <!-- b.svg   --> y")
  = Some (lit "a.svg--> <!-- b.svg").
Proof. vm_compute. reflexivity. Qed.

Lemma fm_example_3 :
  filename_match (lit "<!-- .svg-->") = Some (lit " .svg").
Proof. vm_compute. reflexivity. Qed.

Lemma fm_example_4 :
  filename_match (lit "<!-- a.png -->") = None.
Proof. vm_compute. reflexivity. Qed.

Lemma main_example :
  main ICONS sheet_example
  = ([EWrite (truediv ICONS (lit "a.svg"))
             (lit "<svg x=" ++ quoted (lit "1") ++ lit "><path/></svg>");
      EPrint (lit "Created: a.svg");
      EWrite (truediv ICONS (lit "b.svg"))
             (join_with [NL] [lit "<svg x=" ++ quoted (lit "2") ++ lit ">";
                              lit "<path/>"; lit "</svg>"]);
      EPrint (lit "Created: b.svg");
      EPrint DONE_MSG], None).
Proof. vm_compute. reflexivity. Qed.

(* --------------------------------------------------------------------- *)
(* 7. Substrings                                                         *)
(* --------------------------------------------------------------------- *)

Lemma starts_with_app (p t : str) : starts_with p (p ++ t) = true.
Proof.
  induction p as [|a p IH]; simpl; [done|].
  by rewrite N.eqb_refl.
Qed.

Lemma starts_with_inv (p s : str) :
  starts_with p s = true → ∃ t, s = p ++ t.
Proof.
  revert s. induction p as [|a p IH]; intros s H; simpl in *.
  - by exists s.
  - destruct s as [|b s]; [done|].
    destruct (N.eqb_spec a b) as [->|]; [|done].
    destruct (IH _ H) as [t ->]. by exists t.
Qed.

(** [str_find] returns an index at which the substring occurs, and no
    smaller index has an occurrence. *)
Lemma str_find_Some (sub s : str) (i : nat) :
  str_find sub s = Some i →
  starts_with sub (drop i s) = true
  ∧ ∀ j, (j < i)%nat → starts_with sub (drop j s) = false.
Proof.
  revert i. induction s as [|c s IH]; intros i; simpl.
  - destruct (starts_with sub []) eqn:E; [|done].
    intros [= <-]. split; [done | lia].
  - destruct (starts_with sub (c :: s)) eqn:E.
    + intros [= <-]. split; [done | lia].
    + destruct (str_find sub s) as [k|] eqn:F; [|done].
      intros [= <-]. destruct (IH k eq_refl) as [H1 H2].
      split; [done|]. intros [|j] Hj; simpl; [done|]. apply H2. lia.
Qed.

Lemma str_find_None (sub s : str) :
  str_find sub s = None → ∀ j, starts_with sub (drop j s) = false.
Proof.
  induction s as [|c s IH]; simpl.
  - destruct (starts_with sub []) eqn:E; [done|].
    intros _ j. by rewrite drop_nil.
  - destruct (starts_with sub (c :: s)) eqn:E; [done|].
    destruct (str_find sub s) eqn:F; [done|].
    intros _ [|j]; simpl; [done|]. by apply IH.
Qed.

Lemma str_in_find (sub s : str) :
  str_in sub s = true → ∃ i, str_find sub s = Some i.
Proof.
  unfold str_in. destruct (str_find sub s) as [i|]; [|done]. by exists i.
Qed.

Lemma str_in_occurs (sub s : str) :
  str_in sub s = true ↔ ∃ a b, s = a ++ sub ++ b.
Proof.
  split.
  - intros H. destruct (str_in_find _ _ H) as [i Hi].
    destruct (str_find_Some _ _ _ Hi) as [H1 _].
    destruct (starts_with_inv _ _ H1) as [t Ht].
    exists (take i s), t. by rewrite <- Ht, take_drop.
  - intros (a & b & ->). unfold str_in.
    destruct (str_find sub (a ++ sub ++ b)) eqn:F; [done|].
    pose proof (str_find_None _ _ F (length a)) as H.
    rewrite drop_app_length in H. by rewrite starts_with_app in H.
Qed.

(* --------------------------------------------------------------------- *)
(* 8. One line at a time                                                 *)
(* --------------------------------------------------------------------- *)

Section StepFacts.

Variable output_dir : path.

(** A marker line without an opening tag only replaces the file name. *)
Lemma step_marker_only (st : state) (line name : str) :
  filename_match line = Some name →
  str_in SVG_OPEN line = false →
  step output_dir st line
  = inr ({| current_filename := Some name; current_svg := current_svg st;
            in_svg := in_svg st |}, []).
Proof. intros Hm Ho. unfold step. by rewrite Hm, Ho. Qed.

(** A marker line with an opening tag and no closing tag opens a block
    that starts at the tag. *)
Lemma step_marker_open (st : state) (line name : str) :
  filename_match line = Some name →
  str_in SVG_OPEN line = true →
  str_in SVG_CLOSE line = false →
  ∃ i, str_find SVG_OPEN line = Some i
  ∧ step output_dir st line
    = inr ({| current_filename := Some name; current_svg := [drop i line];
              in_svg := true |}, []).
Proof.
  intros Hm Ho Hc. destruct (str_in_find _ _ Ho) as [i Hi]. exists i.
  split; [done|]. unfold step, str_index. rewrite Hm, Ho, Hi. simpl.
  by rewrite Hc.
Qed.

(** A marker line with both tags writes the rest of the line from the
    opening tag on. *)
Lemma step_marker_whole (st : state) (line name : str) :
  filename_match line = Some name →
  str_in SVG_OPEN line = true →
  str_in SVG_CLOSE line = true →
  ∃ i, str_find SVG_OPEN line = Some i
  ∧ step output_dir st line
    = inr (init, [EWrite (truediv output_dir name) (drop i line);
                  EPrint (CREATED ++ name)]).
Proof.
  intros Hm Ho Hc. destruct (str_in_find _ _ Ho) as [i Hi]. exists i.
  split; [done|]. unfold step, str_index. rewrite Hm, Ho, Hi. simpl.
  by rewrite Hc.
Qed.

(** A line without marker, outside a block, with no file name pending or
    no opening tag, is skipped. *)
Lemma step_skip (st : state) (line : str) :
  filename_match line = None →
  in_svg st = false →
  str_in SVG_OPEN line && truthy (current_filename st) = false →
  step output_dir st line = inr (st, []).
Proof.
  intros Hm Hi Hg. unfold step. by rewrite Hm, Hg, Hi.
Qed.

(** The opening-tag branch. *)
Lemma step_open (st : state) (line : str) :
  filename_match line = None →
  in_svg st = false →
  truthy (current_filename st) = true →
  str_in SVG_OPEN line = true →
  str_in SVG_CLOSE line = false →
  step output_dir st line
  = inr ({| current_filename := current_filename st; current_svg := [line];
            in_svg := true |}, []).
Proof.
  intros Hm Hi Ht Ho Hc. unfold step. by rewrite Hm, Hi, Ht, Ho, Hc.
Qed.

Lemma step_open_close (st : state) (line name : str) :
  filename_match line = None →
  in_svg st = false →
  current_filename st = Some name →
  truthy (Some name) = true →
  str_in SVG_OPEN line = true →
  str_in SVG_CLOSE line = true →
  step output_dir st line
  = inr (init, [EWrite (truediv output_dir name) line;
                EPrint (CREATED ++ name)]).
Proof.
  intros Hm Hi Hn Ht Ho Hc. unfold step. by rewrite Hm, Hi, Hn, Ht, Ho, Hc.
Qed.

(** The collecting branch. *)
Lemma step_collect (st : state) (line : str) :
  filename_match line = None →
  in_svg st = true →
  str_in SVG_CLOSE line = false →
  step output_dir st line
  = inr ({| current_filename := current_filename st;
            current_svg := current_svg st ++ [line]; in_svg := true |}, []).
Proof.
  intros Hm Hi Hc. unfold step. rewrite Hm, Hi, Hc.
  by rewrite andb_false_r.
Qed.

Lemma step_close (st : state) (line name : str) :
  filename_match line = None →
  in_svg st = true →
  current_filename st = Some name →
  str_in SVG_CLOSE line = true →
  step output_dir st line
  = inr (init, [EWrite (truediv output_dir name)
                       (join_with [NL] (current_svg st ++ [line]));
                EPrint (CREATED ++ name)]).
Proof.
  intros Hm Hi Hn Hc. unfold step. rewrite Hm, Hi, Hn, Hc.
  by rewrite andb_false_r.
Qed.

End StepFacts.

(* --------------------------------------------------------------------- *)
(* 9. What the marker pattern captures                                   *)
(* --------------------------------------------------------------------- *)

Lemma one_inv {R} (k : cls) (cont : str → option R) (s : str) (r : R) :
  one k cont s = Some r →
  ∃ c s', s = c :: s' ∧ cls_match k c = true ∧ cont s' = Some r.
Proof.
  destruct s as [|c s']; simpl; [done|].
  destruct (cls_match k c) eqn:E; [|done]. intros H. by exists c, s'.
Qed.

Lemma star_inv {R} (k : cls) (cont : str → option R) (s : str) (r : R) :
  star k cont s = Some r →
  ∃ a b, s = a ++ b ∧ cont b = Some r.
Proof.
  induction s as [|c s IH]; simpl.
  - intros H. by exists [], [].
  - destruct (cls_match k c).
    + destruct (star k cont s) as [r'|] eqn:E.
      * intros [= <-]. destruct (IH eq_refl) as (a & b & -> & Hb).
        by exists (c :: a), b.
      * intros H. by exists [], (c :: s).
    + intros H. by exists [], (c :: s).
Qed.

Lemma char_inv (a c : N) : cls_match (CChar a) c = true → c = a.
Proof. simpl. by intros ->%N.eqb_eq. Qed.

(** A match of the marker pattern at the start of [s]: group 1 is a
    non-empty stem followed by [.svg]. *)
Lemma match_here_marker (s : str) (r : option str) :
  match_here MARKER s None = Some r →
  ∃ stem, stem ≠ [] ∧ r = Some (stem ++ DOT_SVG).
Proof.
  intros H. unfold MARKER in H. cbn [match_here] in H.
  apply one_inv in H as (? & s1 & -> & ?%char_inv & H).
  apply one_inv in H as (? & s2 & -> & ?%char_inv & H).
  apply one_inv in H as (? & s3 & -> & ?%char_inv & H).
  apply one_inv in H as (? & s4 & -> & ?%char_inv & H).
  apply star_inv in H as (ws & b & -> & H).
  apply one_inv in H as (c & b1 & -> & _ & H).
  apply star_inv in H as (a2 & b2 & -> & H).
  apply one_inv in H as (? & t1 & -> & ?%char_inv & H).
  apply one_inv in H as (? & t2 & -> & ?%char_inv & H).
  apply one_inv in H as (? & t3 & -> & ?%char_inv & H).
  apply one_inv in H as (? & t4 & -> & ?%char_inv & H).
  apply star_inv in H as (ws' & u & -> & H).
  apply one_inv in H as (? & u1 & -> & _ & H).
  apply one_inv in H as (? & u2 & -> & _ & H).
  apply one_inv in H as (? & u3 & -> & _ & H).
  injection H as <-. subst.
  exists (c :: a2). split; [done|]. simpl. f_equal. f_equal.
  replace (c :: a2 ++ 46 :: 115 :: 118 :: 103 :: ws' ++ _ :: _ :: _ :: u3)
    with ((c :: a2 ++ DOT_SVG) ++ (ws' ++ x7 :: x8 :: x9 :: u3)).
  2:{ simpl. by rewrite <- app_assoc. }
  match goal with |- take ?n _ = _ =>
    replace n with (length (c :: a2 ++ DOT_SVG)) end.
  - by rewrite take_app_length.
  - simpl. repeat (rewrite length_app; simpl). lia.
Qed.

Lemma search_inv (p : list node) (s : str) (r : option str) :
  search p s = Some r → ∃ a b, s = a ++ b ∧ match_here p b None = Some r.
Proof.
  induction s as [|c s IH]; simpl.
  - destruct (match_here p [] None) eqn:E; [|done].
    intros [= <-]. by exists [], [].
  - destruct (match_here p (c :: s) None) eqn:E.
    + intros [= <-]. by exists [], (c :: s).
    + intros H. destruct (IH H) as (a & b & -> & Hb). by exists (c :: a), b.
Qed.

(** The captured file name ends in [.svg] and has a non-empty stem. *)
Lemma filename_match_svg (line name : str) :
  filename_match line = Some name →
  ∃ stem, stem ≠ [] ∧ name = stem ++ DOT_SVG.
Proof.
  unfold filename_match. destruct (search MARKER line) as [[n|]|] eqn:E; [|done..].
  intros [= <-]. apply search_inv in E as (a & b & _ & H).
  apply match_here_marker in H as (stem & Hne & [= ->]). by exists stem.
Qed.

Lemma filename_match_truthy (line name : str) :
  filename_match line = Some name → truthy (Some name) = true.
Proof.
  intros (stem & Hne & ->)%filename_match_svg. by destruct stem.
Qed.

(* --------------------------------------------------------------------- *)
(* 10. The loop never raises                                             *)
(* --------------------------------------------------------------------- *)

Lemma good_init (L : list str) : good L init.
Proof. split; simpl; [done| done |done]. Qed.

Lemma captured_truthy (L : list str) (n : str) :
  captured L n → truthy (Some n) = true.
Proof. intros (line & _ & Hm). by eapply filename_match_truthy. Qed.

Section LoopFacts.

Variable output_dir : path.

Lemma step_good (L : list str) (st : state) (line : str) :
  good L st → line ∈ L →
  ∃ st', good L st'
  ∧ (step output_dir st line = inr (st', [])
     ∨ ∃ b, captured L b.1 ∧ st' = init
            ∧ step output_dir st line = inr (init, emit output_dir b)).
Proof.
  intros Hst HL. pose proof Hst as [Hn Ho Hb].
  destruct (filename_match line) as [name|] eqn:Hm.
  - assert (captured L name) as Hcap by by exists line.
    destruct (str_in SVG_OPEN line) eqn:Hop.
    + destruct (str_in SVG_CLOSE line) eqn:Hcl.
      * destruct (step_marker_whole output_dir st _ _ Hm Hop Hcl) as (i & _ & ->).
        exists init. split; [apply good_init|]. right.
        by exists (name, drop i line).
      * destruct (step_marker_open output_dir st _ _ Hm Hop Hcl) as (i & _ & ->).
        eexists. split; [|by left]. split; simpl; [|done..].
        by intros ? [= <-].
    + rewrite (step_marker_only output_dir st _ _ Hm Hop).
      eexists. split; [|by left]. split; simpl; [|done..].
      by intros ? [= <-].
  - destruct (in_svg st) eqn:Hi.
    + destruct (Ho eq_refl) as [name Hname].
      destruct (str_in SVG_CLOSE line) eqn:Hcl.
      * rewrite (step_close output_dir st _ _ Hm Hi Hname Hcl).
        exists init. split; [apply good_init|]. right.
        exists (name, join_with [NL] (current_svg st ++ [line])).
        split; [by apply Hn | done].
      * rewrite (step_collect output_dir st _ Hm Hi Hcl).
        eexists. split; [|by left]. split; simpl; [done| |done].
        intros _. by rewrite Hname.
    + destruct (str_in SVG_OPEN line && truthy (current_filename st)) eqn:Hg.
      * apply andb_true_iff in Hg as [Hop Ht].
        destruct (current_filename st) as [name|] eqn:Hname; [|done].
        destruct (str_in SVG_CLOSE line) eqn:Hcl.
        -- rewrite (step_open_close output_dir st _ _ Hm Hi Hname Ht Hop Hcl).
           exists init. split; [apply good_init|]. right. exists (name, line).
           split; [by apply Hn | done].
        -- rewrite (step_open output_dir st _ Hm Hi); [|by rewrite Hname|done..].
           eexists. split; [|by left]. split; simpl; [|done..].
           rewrite Hname. intros ? [= <-]. by apply Hn.
      * rewrite (step_skip output_dir st _ Hm Hi Hg). exists st.
        split; [done | by left].
Qed.

(** From a good state the loop ends normally, and what it did is a
    sequence of written blocks, each named by a marker of the text. *)
Lemma loop_good (L lines : list str) (st : state) :
  good L st → lines ⊆ L →
  ∃ blocks st', good L st'
  ∧ Forall (λ b, captured L b.1) blocks
  ∧ loop output_dir st lines = (flat_map (emit output_dir) blocks, inr st').
Proof.
  revert st. induction lines as [|line rest IH]; intros st Hg HL.
  - by exists [], st.
  - assert (line ∈ L) as Hin by (apply HL; left).
    assert (rest ⊆ L) as Hrest by (intros x Hx; apply HL; by right).
    destruct (step_good L st line Hg Hin) as (st1 & Hg1 & [Hs | (b & Hb & -> & Hs)]);
      destruct (IH _ Hg1 Hrest) as (bs & st2 & Hg2 & Hbs & Hl);
      cbn [loop]; rewrite Hs, Hl.
    + by exists bs, st2.
    + exists (b :: bs), st2. split; [done|]. split; [by constructor | done].
Qed.

Lemma loop_app (l1 l2 : list str) (st : state) :
  loop output_dir st (l1 ++ l2)
  = match loop output_dir st l1 with
    | (e1, inr st') =>
        let '(e2, r) := loop output_dir st' l2 in (e1 ++ e2, r)
    | (e1, inl x) => (e1, inl x)
    end.
Proof.
  revert st. induction l1 as [|l l1 IH]; intros st; cbn [loop app].
  - simpl. by destruct (loop output_dir st l2).
  - destruct (step output_dir st l) as [x | [st1 evs]]; [done|].
    rewrite IH. destruct (loop output_dir st1 l1) as [e1 [x|st2]].
    + done.
    + simpl. destruct (loop output_dir st2 l2) as [e2 r]. by rewrite app_assoc.
Qed.

End LoopFacts.

Lemma printed_emit (d : path) (blocks : list (str * str)) :
  printed (flat_map (emit d) blocks) = (λ b, CREATED ++ b.1) <$> blocks.
Proof.
  induction blocks as [|b bs IH]; [done|].
  change (printed (flat_map (emit d) (b :: bs)))
    with ((CREATED ++ b.1) :: printed (flat_map (emit d) bs)).
  by rewrite IH.
Qed.

Lemma written_emit (d : path) (blocks : list (str * str)) :
  written (flat_map (emit d) blocks) = (λ b, (truediv d b.1, b.2)) <$> blocks.
Proof.
  induction blocks as [|b bs IH]; [done|].
  change (written (flat_map (emit d) (b :: bs)))
    with ((truediv d b.1, b.2) :: written (flat_map (emit d) bs)).
  by rewrite IH.
Qed.

Lemma printed_app (e1 e2 : list event) :
  printed (e1 ++ e2) = printed e1 ++ printed e2.
Proof. apply omap_app. Qed.

Lemma written_app (e1 e2 : list event) :
  written (e1 ++ e2) = written e1 ++ written e2.
Proof. apply omap_app. Qed.

(** The line numbers of [cs], each one more. *)
Lemma shift_fst (cs : list (nat * (str * str))) :
  ((λ c, (S c.1, c.2)) <$> cs).*1 = S <$> cs.*1.
Proof. rewrite <- !list_fmap_compose. by apply list_fmap_ext. Qed.

Lemma shift_snd (cs : list (nat * (str * str))) :
  ((λ c, (S c.1, c.2)) <$> cs).*2 = cs.*2.
Proof. rewrite <- !list_fmap_compose. by apply list_fmap_ext. Qed.

(** The loop, line by line: the lines that write, with the number of each
    and the block it writes, in the order of the run, which is the order
    of the lines; every other line is silent. *)
Lemma loop_closes (output_dir : path) (L lines : list str) (st : state) :
  good L st → lines ⊆ L →
  ∃ (closes : list (nat * (str * str))) (st' : state),
    loop output_dir st lines = (flat_map (emit output_dir) closes.*2, inr st')
    ∧ (∀ k1 k2 c1 c2, closes !! k1 = Some c1 → closes !! k2 = Some c2 →
         (k1 < k2)%nat → (c1.1 < c2.1)%nat)
    ∧ (∀ i b, (i, b) ∈ closes →
         ∃ sti line,
           lines !! i = Some line
           ∧ (loop output_dir st (take i lines)).2 = inr sti
           ∧ step output_dir sti line = inr (init, emit output_dir b))
    ∧ (∀ i, (i < length lines)%nat → i ∉ closes.*1 →
         ∃ sti line st'',
           lines !! i = Some line
           ∧ (loop output_dir st (take i lines)).2 = inr sti
           ∧ step output_dir sti line = inr (st'', [])).
Proof.
  revert st. induction lines as [|line rest IH]; intros st Hg HL.
  - exists [], st. split; [done|]. split; [by intros ? ? ? ? ?|].
    split; [by intros ? ? ?%elem_of_nil|]. simpl. intros i Hi. lia.
  - assert (line ∈ L) as Hin by (apply HL; left).
    assert (rest ⊆ L) as Hrest by (intros x Hx; apply HL; by right).
    assert (∀ st1 evs j, step output_dir st line = inr (st1, evs) →
              (loop output_dir st (take (S j) (line :: rest))).2
              = (loop output_dir st1 (take j rest)).2) as Htake.
    { intros st1 evs j Hs. cbn [take loop]. rewrite Hs.
      by destruct (loop output_dir st1 (take j rest)). }
    destruct (step_good output_dir L st line Hg Hin)
      as (st1 & Hg1 & [Hs | (b & _ & -> & Hs)]);
      destruct (IH _ Hg1 Hrest) as (cs & st2 & Hl & Hord & Hcl & Hsil).
    + (* the line is silent *)
      exists ((λ c, (S c.1, c.2)) <$> cs), st2.
      split; [cbn [loop]; by rewrite Hs, Hl, shift_snd|]. split; [|split].
      * intros k1 k2 c1 c2 H1 H2 Hk.
        rewrite list_lookup_fmap in H1, H2.
        destruct (cs !! k1) as [d1|] eqn:E1; [|done].
        destruct (cs !! k2) as [d2|] eqn:E2; [|done].
        injection H1 as <-. injection H2 as <-. simpl.
        specialize (Hord _ _ _ _ E1 E2 Hk). lia.
      * intros i b ([j b'] & [= -> ->] & Hc)%list_elem_of_fmap. cbn [fst snd].
        destruct (Hcl _ _ Hc) as (sti & l & Hl1 & Hl2 & Hl3).
        exists sti, l. split; [done|]. split; [|done].
        by rewrite (Htake _ _ _ Hs).
      * intros [|j] Hi Hni.
        -- exists st, line, st1. by split; [|split].
        -- simpl in Hi. destruct (Hsil j) as (sti & l & st'' & Hl1 & Hl2 & Hl3);
             [lia| |].
           { intros Hj. apply Hni. rewrite shift_fst.
             apply list_elem_of_fmap. by exists j. }
           exists sti, l, st''. split; [done|]. split; [|done].
           by rewrite (Htake _ _ _ Hs).
    + (* the line closes the block [b] *)
      exists ((0%nat, b) :: ((λ c, (S c.1, c.2)) <$> cs)), st2.
      split.
      { cbn [loop]. rewrite Hs, Hl. simpl. by rewrite shift_snd. }
      split; [|split].
      * intros [|k1] [|k2] c1 c2 H1 H2 Hk; try lia.
        -- injection H1 as <-. simpl in H2. rewrite list_lookup_fmap in H2.
           destruct (cs !! k2) as [d2|]; [|done]. injection H2 as <-. simpl. lia.
        -- simpl in H1, H2. rewrite list_lookup_fmap in H1, H2.
           destruct (cs !! k1) as [d1|] eqn:E1; [|done].
           destruct (cs !! k2) as [d2|] eqn:E2; [|done].
           injection H1 as <-. injection H2 as <-. simpl.
           assert (k1 < k2)%nat as Hk' by lia.
           specialize (Hord _ _ _ _ E1 E2 Hk'). lia.
      * intros i b0 [[= -> ->] | ([j b'] & [= -> ->] & Hc)%list_elem_of_fmap]%elem_of_cons.
        -- by exists st, line.
        -- cbn [fst snd]. destruct (Hcl _ _ Hc) as (sti & l & Hl1 & Hl2 & Hl3).
           exists sti, l. split; [done|]. split; [|done].
           by rewrite (Htake _ _ _ Hs).
      * intros [|j] Hi Hni.
        -- exfalso. apply Hni. left.
        -- simpl in Hi. destruct (Hsil j) as (sti & l & st'' & Hl1 & Hl2 & Hl3);
             [lia| |].
           { intros Hj. apply Hni. right. rewrite shift_fst.
             apply list_elem_of_fmap. by exists j. }
           exists sti, l, st''. split; [done|]. split; [|done].
           by rewrite (Htake _ _ _ Hs).
Qed.

(** C6. The console output of a run is exactly one line
    [Created: <filename>] per written file, in the order in which the
    blocks are met in the source, followed by the completion message once
    all lines are processed.  In full: the lines of the source that close
    a block, taken by increasing line number, give the blocks [closes];
    the iteration on each of them writes the file of its block and prints
    its [Created] line, the iteration on every other line is silent; the
    run is the events of these blocks in that order, then the completion
    message, and it ends without an exception. *)
Theorem C6_console_output (output_dir : path) (content : str) :
  ∃ closes : list (nat * (str * str)),
    (∀ k1 k2 c1 c2, closes !! k1 = Some c1 → closes !! k2 = Some c2 →
       (k1 < k2)%nat → (c1.1 < c2.1)%nat)
    ∧ (∀ i b, (i, b) ∈ closes →
         closes_at output_dir (split_on NL content) i b)
    ∧ (∀ i, (i < length (split_on NL content))%nat → i ∉ closes.*1 →
         silent_at output_dir (split_on NL content) i)
    ∧ main output_dir content
      = (flat_map (emit output_dir) closes.*2 ++ [EPrint DONE_MSG], None)
    ∧ written (main output_dir content).1
      = (λ b, (truediv output_dir b.1, b.2)) <$> closes.*2
    ∧ printed (main output_dir content).1
      = ((λ b, CREATED ++ b.1) <$> closes.*2) ++ [DONE_MSG].
Proof.
  destruct (loop_closes output_dir _ (split_on NL content) init
              (good_init _) (reflexivity _))
    as (closes & st & Hl & Hord & Hcl & Hsil).
  exists closes. split; [done|]. split; [done|]. split; [done|].
  unfold main. rewrite Hl. cbn [fst].
  split; [done|]. split.
  - rewrite written_app, written_emit. simpl. by rewrite app_nil_r.
  - by rewrite printed_app, printed_emit.
Qed.

(* --------------------------------------------------------------------- *)
(* 11. Files                                                             *)
(* --------------------------------------------------------------------- *)

Lemma fs_after_lookup (evs : list event) (fs : gmap str str) (k : str) :
  fs_after fs evs !! k
  = match last_write k evs with Some c => Some c | None => fs !! k end.
Proof.
  revert fs. induction evs as [|ev evs IH]; intros fs; [done|].
  cbn [fs_after foldl last_write]. fold (fs_after (apply_event fs ev) evs).
  rewrite IH. destruct (last_write k evs) as [c|]; [done|].
  destruct ev as [p c|s]; simpl; [|done].
  destruct (decide (path_str p = k)) as [->|Hne].
  - by rewrite lookup_insert_eq.
  - by rewrite lookup_insert_ne.
Qed.

(** C7. Running the splitter twice on the same source leaves the same
    files as running it once: a write replaces the text of its file, so
    the second run stores again, file by file, what the first one stored. *)
Theorem C7_idempotent (output_dir : path) (content : str) (fs : gmap str str) :
  fs_after (fs_after fs (main output_dir content).1) (main output_dir content).1
  = fs_after fs (main output_dir content).1.
Proof.
  apply map_eq. intros k. rewrite !fs_after_lookup.
  by destruct (last_write k (main output_dir content).1).
Qed.

(* --------------------------------------------------------------------- *)
(* 12. Single lines                                                      *)
(* --------------------------------------------------------------------- *)

(** C10. While a block is open, a line that matches the marker pattern and
    has no opening tag is not added to the buffer, replaces the pending
    file name by the captured one, writes nothing, and leaves the block
    open, whether or not the line holds the closing tag. *)
Theorem C10_marker_inside_block (output_dir : path) (st : state) (line name : str) :
  in_svg st = true →
  filename_match line = Some name →
  str_in SVG_OPEN line = false →
  step output_dir st line
  = inr ({| current_filename := Some name; current_svg := current_svg st;
            in_svg := true |}, []).
Proof.
  intros Hi Hm Ho. rewrite (step_marker_only output_dir st _ _ Hm Ho).
  by rewrite Hi.
Qed.

(** An open block and a marker line that holds the closing tag. *)
Lemma C10_witness :
  step ICONS {| current_filename := Some (lit "a.svg");
                current_svg := [lit "<svg>"]; in_svg := true |}
       (lit "</svg><!-- b.svg -->")
  = inr ({| current_filename := Some (lit "b.svg");
            current_svg := [lit "<svg>"]; in_svg := true |}, []).
Proof.
  apply (C10_marker_inside_block ICONS
           {| current_filename := Some (lit "a.svg");
              current_svg := [lit "<svg>"]; in_svg := true |}
           (lit "</svg><!-- b.svg -->") (lit "b.svg"));
    vm_compute; reflexivity.
Defined.

(** C9. A line with an opening tag that is met while no file name is
    pending (none remembered, and no marker on the line itself) and no
    block is open starts no block and writes nothing; the loop variables
    are unchanged, so the rest of the text is scanned as if the line were
    not there. *)
Theorem C9_unmarked_tag_ignored
    (output_dir : path) (st : state) (line : str) (rest : list str) :
  current_filename st = None →
  in_svg st = false →
  filename_match line = None →
  str_in SVG_OPEN line = true →
  step output_dir st line = inr (st, [])
  ∧ loop output_dir st (line :: rest) = loop output_dir st rest.
Proof.
  intros Hn Hi Hm Ho.
  assert (step output_dir st line = inr (st, [])) as Hs.
  { apply step_skip; [done..|]. by rewrite Hn, andb_false_r. }
  split; [done|]. cbn [loop]. rewrite Hs.
  by destruct (loop output_dir st rest).
Qed.

(** The wrapping tag of a sheet, before the first marker. *)
Lemma C9_witness :
  step ICONS init (lit "<svg xmlns=1>") = inr (init, [])
  ∧ loop ICONS init [lit "<svg xmlns=1>"; lit "<!-- a.svg --><svg></svg>"]
    = loop ICONS init [lit "<!-- a.svg --><svg></svg>"].
Proof.
  apply (C9_unmarked_tag_ignored ICONS init (lit "<svg xmlns=1>")
           [lit "<!-- a.svg --><svg></svg>"]); vm_compute; reflexivity.
Defined.

(** C2, as stated, fails: text after the closing tag is written too. *)
Lemma C2_counterexample :
  let line := lit "<!-- a.svg --><svg><path/></svg><!-- end -->" in
  filename_match line = Some (lit "a.svg")
  ∧ str_in SVG_OPEN line = true
  ∧ str_in SVG_CLOSE line = true
  ∧ tag_to_tag line = Some (lit "<svg><path/></svg>")
  ∧ written (main ICONS line).1
    = [(truediv ICONS (lit "a.svg"), lit "<svg><path/></svg><!-- end -->")]
  ∧ tag_to_tag line ≠ Some (lit "<svg><path/></svg><!-- end -->").
Proof. vm_compute. repeat split; try reflexivity. discriminate. Qed.

(** C2 (amended). A line with a marker comment, an opening tag and a
    closing tag is written at once, whatever the loop variables hold, to
    the file the marker names; the text written is the rest of the line
    from its first opening tag on, up to the end of the line: what comes
    before that tag is left out, what follows the closing tag is kept.
    The file has one line, and the loop variables are reset. *)
Theorem C2_marker_line_block
    (output_dir : path) (st : state) (line name : str) :
  filename_match line = Some name →
  str_in SVG_OPEN line = true →
  str_in SVG_CLOSE line = true →
  ∃ before svg_content,
    line = before ++ svg_content
    ∧ starts_with SVG_OPEN svg_content = true
    ∧ (∀ j, (j < length before)%nat → starts_with SVG_OPEN (drop j line) = false)
    ∧ (NL ∉ line → NL ∉ svg_content)
    ∧ step output_dir st line
      = inr (init, [EWrite (truediv output_dir name) svg_content;
                    EPrint (CREATED ++ name)]).
Proof.
  intros Hm Ho Hc.
  destruct (step_marker_whole output_dir st _ _ Hm Ho Hc) as (i & Hi & Hs).
  destruct (str_find_Some _ _ _ Hi) as [H1 H2].
  exists (take i line), (drop i line). split; [by rewrite take_drop|].
  split; [done|]. split; [|split; [|done]].
  - intros j Hj. apply H2. rewrite length_take in Hj. lia.
  - intros Hnl Hin. apply Hnl. rewrite <- (take_drop i line).
    apply elem_of_app. by right.
Qed.

Lemma C2_witness :
  ∃ before svg_content,
    lit "<!-- a.svg --><svg><path/></svg><!-- end -->" = before ++ svg_content
    ∧ starts_with SVG_OPEN svg_content = true
    ∧ (∀ j, (j < length before)%nat →
         starts_with SVG_OPEN
           (drop j (lit "<!-- a.svg --><svg><path/></svg><!-- end -->")) = false)
    ∧ (NL ∉ lit "<!-- a.svg --><svg><path/></svg><!-- end -->" → NL ∉ svg_content)
    ∧ step ICONS init (lit "<!-- a.svg --><svg><path/></svg><!-- end -->")
      = inr (init, [EWrite (truediv ICONS (lit "a.svg")) svg_content;
                    EPrint (CREATED ++ lit "a.svg")]).
Proof.
  apply (C2_marker_line_block ICONS init
           (lit "<!-- a.svg --><svg><path/></svg><!-- end -->") (lit "a.svg"));
    vm_compute; reflexivity.
Defined.

(* --------------------------------------------------------------------- *)
(* 13. Where the files go                                                *)
(* --------------------------------------------------------------------- *)

Lemma split_on_plain (sep : N) (s : str) :
  sep ∉ s → split_on sep s = [s].
Proof.
  induction s as [|c s IH]; intros Hs; simpl; [done|].
  destruct (N.eqb_spec c sep) as [->|Hne].
  - exfalso. apply Hs. left.
  - rewrite IH; [done|]. intros H. apply Hs. by right.
Qed.

(** Text without a separator that is added at the end goes to the last
    piece. *)
Lemma split_on_app_plain (sep : N) (a b : str) :
  sep ∉ b →
  ∃ pieces w, split_on sep a = pieces ++ [w]
              ∧ split_on sep (a ++ b) = pieces ++ [w ++ b].
Proof.
  intros Hb. induction a as [|c a (pieces & w & H1 & H2)]; simpl.
  - exists [], []. by rewrite split_on_plain.
  - rewrite H1, H2. destruct (c =? sep).
    + by exists ([] :: pieces), w.
    + destruct pieces as [|x pieces]; simpl.
      * by exists [], (c :: w).
      * by exists ((c :: x) :: pieces), w.
Qed.

Lemma str_eqb_refl (x : str) : str_eqb x x = true.
Proof. unfold str_eqb. by apply bool_decide_eq_true. Qed.

(** A relative key that ends in [.svg] has at least one component. *)
Lemma parse_parts_svg (stem : str) :
  parse_parts (stem ++ DOT_SVG) ≠ [].
Proof.
  destruct (split_on_app_plain SLASH stem DOT_SVG) as (pieces & w & _ & H).
  { unfold DOT_SVG, SLASH. intros Hin.
    repeat (apply elem_of_cons in Hin as [Hin|Hin]; [done|]).
    by apply elem_of_nil in Hin. }
  unfold parse_parts. rewrite H, List.filter_app. simpl.
  assert (str_eqb (w ++ DOT_SVG) [] = false) as ->.
  { apply bool_decide_eq_false. by destruct w. }
  assert (str_eqb (w ++ DOT_SVG) DOT = false) as ->.
  { apply bool_decide_eq_false. intros E. apply (f_equal length) in E.
    rewrite length_app in E. simpl in E. lia. }
  simpl. intros E. by apply app_eq_nil in E as [_ ?].
Qed.

Lemma resolve_plain (ps stack : list str) :
  DOTDOT ∉ ps → resolve stack ps = rev stack ++ ps.
Proof.
  revert stack. induction ps as [|x ps IH]; intros stack Hps; simpl.
  - by rewrite app_nil_r.
  - assert (str_eqb x DOTDOT = false) as ->.
    { apply bool_decide_eq_false. intros ->. apply Hps. left. }
    rewrite IH; [|intros H; apply Hps; by right].
    simpl. by rewrite <- app_assoc.
Qed.

Lemma resolve_app_plain (ps qs stack : list str) :
  DOTDOT ∉ qs → resolve stack (ps ++ qs) = resolve stack ps ++ qs.
Proof.
  revert stack. induction ps as [|x ps IH]; intros stack Hqs; simpl.
  - by apply resolve_plain.
  - destruct (str_eqb x DOTDOT); by apply IH.
Qed.

Lemma proper_prefix_app (a b : list str) :
  b ≠ [] → proper_prefix a (a ++ b) = true.
Proof.
  intros Hb. induction a as [|x a IH]; simpl.
  - by destruct b.
  - by rewrite str_eqb_refl.
Qed.

(** A relative file name that ends in [.svg] and has no [..] component
    is joined to a path below the directory. *)
Lemma truediv_inside (d : path) (stem : str) :
  root (parse (stem ++ DOT_SVG)) = [] →
  DOTDOT ∉ parts (parse (stem ++ DOT_SVG)) →
  inside d (truediv d (stem ++ DOT_SVG)) = true.
Proof.
  intros Hroot Hdd. unfold truediv. rewrite Hroot. unfold inside. simpl.
  rewrite str_eqb_refl. simpl. rewrite resolve_app_plain by done.
  apply proper_prefix_app.
  unfold parse in *. destruct (splitroot (stem ++ DOT_SVG)) as [r rel] eqn:E.
  simpl in *. subst r.
  assert (rel = stem ++ DOT_SVG) as ->; [|apply parse_parts_svg].
  unfold splitroot in E.
  destruct (stem ++ DOT_SVG) as [|c1 [|c2 [|c3 t]]] eqn:Es;
    repeat match type of E with
      | context [match ?c with _ => _ end] => destruct c; try discriminate
      | (_, _) = (_, _) => injection E as <-; try reflexivity
      end.
Qed.

(** C4, as stated, fails: a marker that names a file in the parent
    directory, or by an absolute path, has its block written there. *)
Lemma C4_counterexample :
  written (main ICONS (lit "<!-- ../x.svg --><svg></svg>")).1
  = [({| root := [SLASH];
         parts := [lit "srv"; lit "app"; lit "src"; lit "assets"; lit "icons";
                   lit ".."; lit "x.svg"] |},
      lit "<svg></svg>")]
  ∧ inside ICONS (truediv ICONS (lit "../x.svg")) = false
  ∧ written (main ICONS (lit "<!-- /tmp/x.svg --><svg></svg>")).1
    = [({| root := [SLASH]; parts := [lit "tmp"; lit "x.svg"] |},
        lit "<svg></svg>")]
  ∧ inside ICONS (truediv ICONS (lit "/tmp/x.svg")) = false.
Proof. vm_compute. repeat split; reflexivity. Qed.

(** C4 (amended). Every file of a run is written to the path that joins
    the output directory and a file name captured from a marker comment
    of the source; when that name is relative and has no [..] component,
    the path lies inside the output directory. *)
Theorem C4_output_inside
    (output_dir : path) (content : str) (p : path) (text : str) :
  (p, text) ∈ written (main output_dir content).1 →
  ∃ line name,
    line ∈ split_on NL content
    ∧ filename_match line = Some name
    ∧ p = truediv output_dir name
    ∧ (root (parse name) = [] → DOTDOT ∉ parts (parse name) →
       inside output_dir p = true).
Proof.
  destruct (loop_good output_dir _ (split_on NL content) init
              (good_init _) (reflexivity _))
    as (blocks & st & _ & Hcap & Hl).
  unfold main. rewrite Hl. cbn [fst].
  rewrite written_app, written_emit. simpl. rewrite app_nil_r.
  intros ([name c] & [= -> ->] & Hb)%list_elem_of_fmap.
  rewrite Forall_forall in Hcap. destruct (Hcap _ Hb) as (line & Hin & Hm).
  exists line, name. simpl in *. split; [done|]. split; [done|].
  split; [done|]. intros Hroot Hdd.
  destruct (filename_match_svg _ _ Hm) as (stem & _ & ->).
  by apply truediv_inside.
Qed.

Lemma C4_witness :
  ∃ line name,
    line ∈ split_on NL sheet_example
    ∧ filename_match line = Some name
    ∧ truediv ICONS (lit "a.svg") = truediv ICONS name
    ∧ (root (parse name) = [] → DOTDOT ∉ parts (parse name) →
       inside ICONS (truediv ICONS (lit "a.svg")) = true).
Proof.
  apply (C4_output_inside ICONS sheet_example
           (truediv ICONS (lit "a.svg"))
           (lit "<svg x=" ++ quoted (lit "1") ++ lit "><path/></svg>")).
  vm_compute. left.
Defined.

(* --------------------------------------------------------------------- *)
(* 14. Runs of lines                                                     *)
(* --------------------------------------------------------------------- *)

Lemma is_marker_false (l : str) : is_marker l = false → filename_match l = None.
Proof. unfold is_marker. by destruct (filename_match l). Qed.

Lemma is_marker_true (l : str) :
  is_marker l = true → ∃ name, filename_match l = Some name.
Proof. unfold is_marker. destruct (filename_match l) as [n|]; [by exists n|done]. Qed.

Section Runs.

Variable output_dir : path.

(** Outside a block, lines without marker and without opening tag change
    nothing. *)
Lemma loop_gap (gap : list str) (st : state) :
  in_svg st = false →
  forallb (λ l, negb (is_marker l) && negb (has_open l)) gap = true →
  loop output_dir st gap = ([], inr st).
Proof.
  intros Hi. induction gap as [|l gap IH]; [done|].
  cbn [forallb]. intros [[Hm Ho]%andb_true_iff Hgap]%andb_true_iff.
  apply negb_true_iff, is_marker_false in Hm. apply negb_true_iff in Ho.
  cbn [loop]. rewrite step_skip; [|done..|by unfold has_open in Ho; rewrite Ho].
  by rewrite (IH Hgap).
Qed.

(** Inside a block, lines without marker and without closing tag are
    added to the buffer. *)
Lemma loop_body (body : list str) (st : state) :
  in_svg st = true →
  forallb (λ l, negb (is_marker l) && negb (has_close l)) body = true →
  loop output_dir st body
  = ([], inr {| current_filename := current_filename st;
                current_svg := current_svg st ++ body; in_svg := true |}).
Proof.
  revert st. induction body as [|l body IH]; intros st Hi.
  - intros _. simpl. rewrite app_nil_r. destruct st; simpl in *. by subst.
  - cbn [forallb]. intros [[Hm Hc]%andb_true_iff Hbody]%andb_true_iff.
    apply negb_true_iff, is_marker_false in Hm. apply negb_true_iff in Hc.
    cbn [loop]. rewrite step_collect; [|done..].
    rewrite IH; [|done..]. simpl. by rewrite <- app_assoc.
Qed.

(** Outside a block, lines without opening tag write nothing and open no
    block, markers or not. *)
Lemma loop_quiet (ls : list str) (st : state) :
  in_svg st = false →
  forallb (λ l, negb (has_open l)) ls = true →
  ∃ st', loop output_dir st ls = ([], inr st') ∧ in_svg st' = false.
Proof.
  revert st. induction ls as [|l ls IH]; intros st Hi.
  - intros _. by exists st.
  - cbn [forallb]. intros [Ho%negb_true_iff Hls]%andb_true_iff.
    unfold has_open in Ho. cbn [loop].
    destruct (filename_match l) as [name|] eqn:Hm.
    + rewrite (step_marker_only output_dir st _ _ Hm Ho).
      destruct (IH {| current_filename := Some name;
                      current_svg := current_svg st; in_svg := in_svg st |})
        as (st' & -> & Hi'); [done..|].
      by exists st'.
    + rewrite step_skip; [|done..|by rewrite Ho].
      destruct (IH st) as (st' & -> & Hi'); [done..|]. by exists st'.
Qed.

(** A block that opens on a line after its marker and closes on a later
    line still. *)
Lemma loop_block (st : state) (m name : str) (gap : list str)
    (first : str) (body : list str) (last : str) :
  in_svg st = false →
  filename_match m = Some name →
  has_open m = false →
  forallb (λ l, negb (is_marker l) && negb (has_open l)) gap = true →
  is_marker first = false →
  has_open first = true →
  has_close first = false →
  forallb (λ l, negb (is_marker l) && negb (has_close l)) body = true →
  is_marker last = false →
  has_close last = true →
  loop output_dir st (m :: gap ++ first :: body ++ [last])
  = (emit output_dir (name, join_with [NL] (first :: body ++ [last])),
     inr init).
Proof.
  intros Hi Hm Ho Hgap Hfm Hfo Hfc Hbody Hlm Hlc.
  apply is_marker_false in Hfm, Hlm.
  cbn [loop]. rewrite (step_marker_only output_dir st _ _ Hm Ho).
  rewrite loop_app, loop_gap; [|done..].
  cbn [loop]. rewrite step_open; [|done|done| |done|done].
  2:{ simpl. by eapply filename_match_truthy. }
  rewrite loop_app, loop_body; [|done..].
  cbn [loop current_filename current_svg in_svg].
  erewrite step_close; [|done..]. done.
Qed.

End Runs.

(** C5, as stated, fails: a comment that names an [.svg] file between the
    opening and the closing line is taken for a marker; it is left out of
    the text, and the file gets its name. *)
Lemma C5_counterexample :
  let lines := [lit "<!-- a.svg -->"; lit "<svg>"; lit "<!-- b.svg -->";
                lit "<path/>"; lit "</svg>"] in
  filename_match (lit "<!-- a.svg -->") = Some (lit "a.svg")
  ∧ has_open (lit "<!-- a.svg -->") = false
  ∧ has_open (lit "<svg>") = true
  ∧ has_close (lit "</svg>") = true
  ∧ forallb (λ l, negb (has_close l)) [lit "<svg>"; lit "<!-- b.svg -->"; lit "<path/>"]
    = true
  ∧ written (main ICONS (join_with [NL] lines)).1
    = [(truediv ICONS (lit "b.svg"),
        join_with [NL] [lit "<svg>"; lit "<path/>"; lit "</svg>"])]
  ∧ (truediv ICONS (lit "a.svg"), join_with [NL] (drop 1 lines))
    ∉ written (main ICONS (join_with [NL] lines)).1.
Proof.
  vm_compute. repeat split; try reflexivity.
  intros H. apply list_elem_of_singleton in H. discriminate H.
Qed.

(** C5 (amended). A marker line without opening tag, met while no block
    is open, then lines without marker and opening tag, then a line with
    the opening tag, lines without closing tag and a line with the closing
    tag, none of them a marker line: the splitter writes one file, named
    by the marker, whose text is the lines from the opening-tag line
    through the closing-tag line joined by newlines, and resets the loop
    variables. *)
Theorem C5_multi_line_block
    (output_dir : path) (st : state) (m name : str) (gap : list str)
    (first : str) (body : list str) (last : str) :
  in_svg st = false →
  filename_match m = Some name →
  has_open m = false →
  forallb (λ l, negb (is_marker l) && negb (has_open l)) gap = true →
  is_marker first = false →
  has_open first = true →
  has_close first = false →
  forallb (λ l, negb (is_marker l) && negb (has_close l)) body = true →
  is_marker last = false →
  has_close last = true →
  loop output_dir st (m :: gap ++ first :: body ++ [last])
  = ([EWrite (truediv output_dir name)
             (join_with [NL] (first :: body ++ [last]));
      EPrint (CREATED ++ name)],
     inr init).
Proof. intros. by apply loop_block. Qed.

Lemma C5_witness :
  loop ICONS init
    (lit "<!-- a.svg -->" :: [lit ""] ++ lit "<g><svg x=1>"
       :: [lit "<path/>"; lit "<svg/>"] ++ [lit "</svg></g>"])
  = ([EWrite (truediv ICONS (lit "a.svg"))
        (join_with [NL]
           (lit "<g><svg x=1>" :: [lit "<path/>"; lit "<svg/>"] ++ [lit "</svg></g>"]));
      EPrint (CREATED ++ lit "a.svg")],
     inr init).
Proof.
  apply (C5_multi_line_block ICONS init (lit "<!-- a.svg -->") (lit "a.svg")
           [lit ""] (lit "<g><svg x=1>") [lit "<path/>"; lit "<svg/>"]
           (lit "</svg></g>"));
    vm_compute; reflexivity.
Defined.

(** C8, as stated, fails: a marker met inside an open block and never
    followed by an opening tag gives its name to that block, which is
    written when the block closes. *)
Lemma C8_counterexample :
  let lines := [lit "<!-- a.svg --><svg>"; lit "<!-- b.svg -->"; lit "</svg>"] in
  filename_match (lit "<!-- b.svg -->") = Some (lit "b.svg")
  ∧ forallb (λ l, negb (has_open l)) [lit "<!-- b.svg -->"; lit "</svg>"] = true
  ∧ main ICONS (join_with [NL] lines)
    = ([EWrite (truediv ICONS (lit "b.svg")) (join_with [NL] [lit "<svg>"; lit "</svg>"]);
        EPrint (lit "Created: b.svg");
        EPrint DONE_MSG], None).
Proof. vm_compute. repeat split; reflexivity. Qed.

(** C8 (amended). When a marker line is met while no block is open and
    neither it nor any later line holds an opening tag, the run writes and
    prints for the whole text what it does for the lines before that
    marker, and nothing more but the completion message: no file for the
    marker, no exception. *)
Theorem C8_marker_without_tag
    (output_dir : path) (content : str) (before : list str) (m name : str)
    (after : list str) (evs : list event) (st : state) :
  split_on NL content = before ++ m :: after →
  loop output_dir init before = (evs, inr st) →
  in_svg st = false →
  filename_match m = Some name →
  forallb (λ l, negb (has_open l)) (m :: after) = true →
  main output_dir content = (evs ++ [EPrint DONE_MSG], None).
Proof.
  intros Hsplit Hbefore Hi Hm Hquiet.
  destruct (loop_quiet output_dir (m :: after) st Hi Hquiet) as (st' & Hl & _).
  unfold main. rewrite Hsplit, loop_app, Hbefore, Hl.
  by rewrite app_nil_r.
Qed.

Lemma C8_witness :
  main ICONS
    (join_with [NL]
       [lit "<!-- a.svg --><svg></svg>"; lit "<!-- b.svg -->"; lit "</svg>"])
  = ([EWrite (truediv ICONS (lit "a.svg")) (lit "<svg></svg>");
      EPrint (CREATED ++ lit "a.svg")] ++ [EPrint DONE_MSG], None).
Proof.
  apply (C8_marker_without_tag ICONS _ [lit "<!-- a.svg --><svg></svg>"]
           (lit "<!-- b.svg -->") (lit "b.svg") [lit "</svg>"] _ init);
    vm_compute; reflexivity.
Defined.

(* --------------------------------------------------------------------- *)
(* 15. Well-formed sheets                                                *)
(* --------------------------------------------------------------------- *)

Section Sheets.

Variable output_dir : path.

(** What the loop does on the lines of a well-formed piece. *)
Lemma loop_segment (sg : segment) :
  seg_ok sg = true →
  loop output_dir init (seg_lines sg)
  = (flat_map (emit output_dir) (option_list (seg_block sg)), inr init)
  ∧ length (option_list (seg_block sg)) = (if is_pair sg then 1 else 0)%nat.
Proof.
  destruct sg as [l | m t | m gap first t]; cbn [seg_ok seg_lines seg_block is_pair].
  - intros Hm%negb_true_iff%is_marker_false. cbn [loop].
    by rewrite step_skip; [|done|done|apply andb_false_r].
  - intros [[Hm Ho]%andb_true_iff Ht]%andb_true_iff.
    apply is_marker_true in Hm as [name Hm]. rewrite Hm.
    cbn [mbind option_bind option_list flat_map length app].
    split; [|done]. destruct t as [|body last]; cbn [tail_ok tail_lines] in *.
    + destruct (step_marker_whole output_dir init _ _ Hm Ho Ht) as (i & Hi & Hs).
      cbn [loop]. rewrite Hs. unfold block_text, from_tag. rewrite Hi. simpl.
      by rewrite ?app_nil_r.
    + apply andb_true_iff in Ht as [[[Hc%negb_true_iff Hbody]%andb_true_iff
        Hlm%negb_true_iff%is_marker_false]%andb_true_iff Hlc].
      destruct (step_marker_open output_dir init _ _ Hm Ho Hc) as (i & Hi & Hs).
      cbn [loop]. rewrite Hs, loop_app, loop_body; [|done..].
      cbn [loop current_filename current_svg in_svg].
      erewrite step_close; [|done..].
      unfold block_text, from_tag. rewrite Hi. simpl. by rewrite ?app_nil_r.
  - intros [[[[[Hm Ho%negb_true_iff]%andb_true_iff Hgap]%andb_true_iff
      Hfm%negb_true_iff]%andb_true_iff Hfo]%andb_true_iff Ht]%andb_true_iff.
    apply is_marker_true in Hm as [name Hm]. rewrite Hm.
    cbn [mbind option_bind option_list flat_map length app].
    split; [|done]. destruct t as [|body last]; cbn [tail_ok tail_lines] in *.
    + apply is_marker_false in Hfm.
      cbn [loop]. rewrite (step_marker_only output_dir init _ _ Hm Ho).
      rewrite loop_app, loop_gap; [|done..].
      cbn [loop]. rewrite (step_open_close output_dir _ first name);
        [|done|done|done|by eapply filename_match_truthy|done|done].
      simpl. by rewrite ?app_nil_r.
    + apply andb_true_iff in Ht as [[[Hc%negb_true_iff Hbody]%andb_true_iff
        Hlm%negb_true_iff]%andb_true_iff Hlc].
      rewrite (loop_block output_dir init m name gap first body last) by done.
      simpl. by rewrite ?app_nil_r.
Qed.

Lemma blocks_cons (sg : segment) (sgs : list segment) :
  blocks (sg :: sgs) = option_list (seg_block sg) ++ blocks sgs.
Proof. unfold blocks. simpl. by destruct (seg_block sg). Qed.

Lemma loop_segments (sgs : list segment) :
  forallb seg_ok sgs = true →
  loop output_dir init (flat_map seg_lines sgs)
  = (flat_map (emit output_dir) (blocks sgs), inr init)
  ∧ length (blocks sgs) = pairs sgs.
Proof.
  induction sgs as [|sg sgs IH]; [done|].
  cbn [forallb flat_map]. intros [Hsg Hsgs]%andb_true_iff.
  destruct (loop_segment sg Hsg) as [H1 H2]. destruct (IH Hsgs) as [H3 H4].
  rewrite loop_app, H1, H3, blocks_cons, flat_map_app, length_app, H2, H4.
  split; [done|]. unfold pairs. cbn [List.filter]. by destruct (is_pair sg).
Qed.

End Sheets.

Lemma last_write_cons_Some (k : str) (ev : event) (evs : list event) (c : str) :
  last_write k evs = Some c → last_write k (ev :: evs) = Some c.
Proof. intros H. simpl. by rewrite H. Qed.

Lemma last_write_emit_None (d : path) (bs : list (str * str)) (s k : str) :
  k ∉ block_file d <$> bs →
  last_write k (flat_map (emit d) bs ++ [EPrint s]) = None.
Proof.
  induction bs as [|b bs IH]; [done|].
  rewrite fmap_cons, not_elem_of_cons. intros [Hne Hk].
  cbn [flat_map emit app last_write]. rewrite (IH Hk).
  by rewrite decide_False.
Qed.

Lemma last_write_emit (d : path) (bs : list (str * str)) (s : str) (b : str * str) :
  NoDup (block_file d <$> bs) → b ∈ bs →
  last_write (block_file d b) (flat_map (emit d) bs ++ [EPrint s]) = Some b.2.
Proof.
  induction bs as [|b0 bs IH]; intros Hnd Hb.
  - by apply elem_of_nil in Hb.
  - rewrite fmap_cons in Hnd. apply NoDup_cons in Hnd as [Hfresh Hnd].
    apply elem_of_cons in Hb as [->|Hb].
    + cbn [flat_map emit app last_write].
      rewrite (last_write_emit_None d bs s _ Hfresh).
      by rewrite decide_True.
    + cbn [flat_map emit app]. do 2 apply last_write_cons_Some. by apply IH.
Qed.

(** C1. A well-formed sheet is a sequence of pieces: lines without marker
    outside every pair, and marker/block pairs, the block on the marker
    line or on later lines, on one line or on several.  Running the
    splitter on a well-formed sheet with N pairs writes exactly N files,
    one per pair and in order, each named by the file name its marker
    captures and holding the text of its block; when the N names are
    different files, each of them holds the text of its block after the
    run. *)
Theorem C1_well_formed_sheet
    (output_dir : path) (content : str) (sgs : list segment) :
  split_on NL content = flat_map seg_lines sgs →
  forallb seg_ok sgs = true →
  main output_dir content
  = (flat_map (emit output_dir) (blocks sgs) ++ [EPrint DONE_MSG], None)
  ∧ written (main output_dir content).1
    = (λ b, (truediv output_dir b.1, b.2)) <$> blocks sgs
  ∧ length (written (main output_dir content).1) = pairs sgs
  ∧ (NoDup (block_file output_dir <$> blocks sgs) →
     ∀ (fs : gmap str str) (b : str * str),
       b ∈ blocks sgs →
       fs_after fs (main output_dir content).1 !! block_file output_dir b
       = Some b.2).
Proof.
  intros Hsplit Hok.
  destruct (loop_segments output_dir sgs Hok) as [Hl Hn].
  assert (main output_dir content
          = (flat_map (emit output_dir) (blocks sgs) ++ [EPrint DONE_MSG], None))
    as Hmain by (unfold main; by rewrite Hsplit, Hl).
  rewrite Hmain. cbn [fst].
  assert (written (flat_map (emit output_dir) (blocks sgs) ++ [EPrint DONE_MSG])
          = (λ b, (truediv output_dir b.1, b.2)) <$> blocks sgs) as Hw.
  { rewrite written_app, written_emit. simpl. by rewrite app_nil_r. }
  split; [done|]. split; [done|]. split.
  - by rewrite Hw, length_fmap.
  - intros Hnd fs b Hb. rewrite fs_after_lookup.
    by rewrite (last_write_emit output_dir _ _ b Hnd Hb).
Qed.

Lemma C1_witness :
  main ICONS (join_with [NL] (flat_map seg_lines sheet_segments))
  = (flat_map (emit ICONS) (blocks sheet_segments) ++ [EPrint DONE_MSG], None)
  ∧ written (main ICONS (join_with [NL] (flat_map seg_lines sheet_segments))).1
    = (λ b, (truediv ICONS b.1, b.2)) <$> blocks sheet_segments
  ∧ length (written (main ICONS (join_with [NL] (flat_map seg_lines sheet_segments))).1)
    = pairs sheet_segments
  ∧ (NoDup (block_file ICONS <$> blocks sheet_segments) →
     ∀ (fs : gmap str str) (b : str * str),
       b ∈ blocks sheet_segments →
       fs_after fs (main ICONS (join_with [NL] (flat_map seg_lines sheet_segments))).1
         !! block_file ICONS b
       = Some b.2).
Proof.
  apply (C1_well_formed_sheet ICONS
           (join_with [NL] (flat_map seg_lines sheet_segments)) sheet_segments);
    vm_compute; reflexivity.
Defined.

Lemma sheet_segments_blocks :
  blocks sheet_segments
  = [(lit "a.svg", lit "<svg x=" ++ quoted (lit "1") ++ lit "><path/></svg>");
     (lit "b.svg",
      join_with [NL] [lit "<svg x=" ++ quoted (lit "2") ++ lit ">";
                      lit "<path/>"; lit "</svg>"])]
  ∧ pairs sheet_segments = 2%nat.
Proof. vm_compute. split; reflexivity. Qed.

(* --------------------------------------------------------------------- *)
(* 16. The loop variables during the scan                                *)
(* --------------------------------------------------------------------- *)

Section Scan.

Variable output_dir : path.

(** The two outcomes of a line: a file is written and the variables are
    reset, or nothing is written and the variables change as told. *)
Lemma step_effect (L : list str) (st : state) (line : str) :
  good L st →
  (∃ ev evs, step output_dir st line = inr (init, ev :: evs))
  ∨ (∃ st', step output_dir st line = inr (st', [])
       ∧ (is_Some (current_filename st')
          ↔ is_marker line = true ∨ is_Some (current_filename st))
       ∧ (in_svg st' = true
          ↔ in_svg st = true
            ∨ (has_open line = true
               ∧ (is_marker line = true ∨ is_Some (current_filename st))))).
Proof.
  intros [Hn Ho Hb]. unfold is_marker, has_open.
  destruct (filename_match line) as [name|] eqn:Hm.
  - destruct (str_in SVG_OPEN line) eqn:Hop.
    + destruct (str_in SVG_CLOSE line) eqn:Hcl.
      * destruct (step_marker_whole output_dir st _ _ Hm Hop Hcl) as (i & _ & ->).
        left. by eexists _, _.
      * destruct (step_marker_open output_dir st _ _ Hm Hop Hcl) as (i & _ & ->).
        right. eexists. split; [done|]. simpl. split; [by split; auto|].
        split; auto.
    + rewrite (step_marker_only output_dir st _ _ Hm Hop).
      right. eexists. split; [done|]. simpl. split; [by split; auto|].
      split; [auto|]. by intros [?|[? _]].
  - destruct (in_svg st) eqn:Hi.
    + destruct (Ho eq_refl) as [name Hname].
      destruct (str_in SVG_CLOSE line) eqn:Hcl.
      * rewrite (step_close output_dir st _ _ Hm Hi Hname Hcl).
        left. by eexists _, _.
      * rewrite (step_collect output_dir st _ Hm Hi Hcl).
        right. eexists. split; [done|]. simpl. split; [|by split; auto].
        split; [auto|]. by intros [?|?].
    + destruct (str_in SVG_OPEN line && truthy (current_filename st)) eqn:Hg.
      * apply andb_true_iff in Hg as [Hop Ht].
        destruct (current_filename st) as [name|] eqn:Hname; [|done].
        destruct (str_in SVG_CLOSE line) eqn:Hcl.
        -- rewrite (step_open_close output_dir st _ _ Hm Hi Hname Ht Hop Hcl).
           left. by eexists _, _.
        -- rewrite (step_open output_dir st _ Hm Hi); [|by rewrite Hname|done..].
           right. eexists. split; [done|]. simpl. rewrite Hname.
           split; [by split; auto|]. split; [|done]. intros _. right. by eauto.
      * rewrite (step_skip output_dir st _ Hm Hi Hg).
        right. exists st. split; [done|]. split.
        -- split; [auto|]. by intros [?|?].
        -- rewrite Hi. split; [done|]. intros [?|[Hop [?|[n Hname]]]]; [done..|].
           rewrite Hop, Hname, (captured_truthy L n) in Hg; [done|].
           by apply Hn.
Qed.

Lemma events_app (pre suf : list str) :
  ∃ more, events output_dir (pre ++ suf) = events output_dir pre ++ more.
Proof.
  unfold events. rewrite loop_app.
  destruct (loop output_dir init pre) as [e1 [x|st]]; simpl.
  - exists []. by rewrite app_nil_r.
  - destruct (loop output_dir st suf) as [e2 r]. by exists e2.
Qed.

(** One more line. *)
Lemma loop_snoc (ls : list str) (l : str) (e : list event) (st st' : state)
    (evs : list event) :
  loop output_dir init ls = (e, inr st) →
  step output_dir st l = inr (st', evs) →
  loop output_dir init (ls ++ [l]) = (e ++ evs, inr st').
Proof.
  intros Hl Hs. rewrite loop_app, Hl. cbn [loop]. rewrite Hs.
  by rewrite app_nil_r.
Qed.

Lemma snoc_split (ls pre post : list str) (l m : str) :
  ls ++ [l] = pre ++ m :: post →
  (post = [] ∧ pre = ls ∧ m = l)
  ∨ ∃ post', post = post' ++ [l] ∧ ls = pre ++ m :: post'.
Proof.
  intros H. destruct (decide (post = [])) as [->|Hne].
  - left. apply app_inj_tail in H as [-> ->]. done.
  - right. destruct (exists_last Hne) as (post' & x & ->).
    change (pre ++ m :: post' ++ [x]) with (pre ++ (m :: post') ++ [x]) in H.
    rewrite app_assoc in H. apply app_inj_tail in H as [-> ->].
    by exists post'.
Qed.

End Scan.

Section Invariant.

Variable output_dir : path.

Lemma pending_snoc (ls : list str) (l : str) :
  events output_dir (ls ++ [l]) = events output_dir ls →
  pending output_dir (ls ++ [l])
  ↔ is_marker l = true ∨ pending output_dir ls.
Proof.
  intros He. split.
  - intros (pre & m & post & Hls & Hm & Hev).
    apply snoc_split in Hls as [(-> & -> & ->) | (post' & -> & ->)]; [by left|].
    right. exists pre, m, post'. by rewrite <- He.
  - intros [Hm | (pre & m & post & -> & Hm & Hev)].
    + by exists ls, l, [].
    + exists pre, m, (post ++ [l]). rewrite <- app_assoc. split; [done|].
      split; [done|]. by rewrite <- Hev, <- He, <- app_assoc.
Qed.

Lemma opened_snoc (ls : list str) (l : str) :
  events output_dir (ls ++ [l]) = events output_dir ls →
  opened output_dir (ls ++ [l])
  ↔ opened output_dir ls
    ∨ (has_open l = true ∧ (is_marker l = true ∨ pending output_dir ls)).
Proof.
  intros He. split.
  - intros (pre & m & post & Hls & Hm & (l0 & Hin & Ho) & Hev).
    apply snoc_split in Hls as [(-> & -> & ->) | (post' & -> & ->)].
    + apply list_elem_of_singleton in Hin as ->. right. by auto.
    + rewrite app_comm_cons in Hin. apply elem_of_app in Hin as [Hin | Hin].
      * left. exists pre, m, post'. rewrite <- He.
        split; [done|]. split; [done|]. split; [by exists l0 | done].
      * apply list_elem_of_singleton in Hin as ->. right. split; [done|].
        right. exists pre, m, post'. by rewrite <- He.
  - intros [(pre & m & post & -> & Hm & (l0 & Hin & Ho) & Hev)
           | [Ho [Hm | (pre & m & post & -> & Hm & Hev)]]].
    + exists pre, m, (post ++ [l]). rewrite <- app_assoc. split; [done|].
      split; [done|]. split.
      * exists l0. split; [|done]. rewrite app_comm_cons.
        apply elem_of_app. by left.
      * by rewrite <- Hev, <- He, <- app_assoc.
    + exists ls, l, []. split; [done|]. split; [done|]. split; [|done].
      exists l. split; [left|done].
    + exists pre, m, (post ++ [l]). rewrite <- app_assoc. split; [done|].
      split; [done|]. split.
      * exists l. split; [|done]. rewrite app_comm_cons.
        apply elem_of_app. right. left.
      * by rewrite <- Hev, <- He, <- app_assoc.
Qed.

(** After a line that wrote a file, no marker line is without a write on
    it or after it. *)
Lemma not_pending_after_write (ls : list str) (l : str) (ev : event)
    (evs : list event) :
  events output_dir (ls ++ [l]) = events output_dir ls ++ ev :: evs →
  ¬ pending output_dir (ls ++ [l]).
Proof.
  intros He (pre & m & post & Hls & _ & Hev).
  assert (∃ suf, ls = pre ++ suf) as [suf ->].
  { apply snoc_split in Hls as [(_ & -> & _) | (post' & _ & ->)].
    - exists []. by rewrite app_nil_r.
    - by exists (m :: post'). }
  destruct (events_app output_dir pre suf) as [more Hmore].
  rewrite He, Hmore, <- app_assoc in Hev.
  apply (f_equal length) in Hev. rewrite !length_app in Hev. simpl in Hev. lia.
Qed.

Lemma opened_pending (ls : list str) :
  opened output_dir ls → pending output_dir ls.
Proof. intros (pre & m & post & ? & ? & _ & ?). by exists pre, m, post. Qed.

End Invariant.

(** C3, as stated, fails in both directions: an opening tag met with no
    file name pending opens no block, and a closing tag on a marker line
    closes none. *)
Lemma C3_counterexample :
  (spec_open_unclosed [lit "<svg>"]
   ∧ state_after ICONS [lit "<svg>"] = inr init
   ∧ in_svg init = false)
  ∧ (¬ spec_open_unclosed [lit "<!-- a.svg --><svg>"; lit "<!-- b.svg --></svg>"]
     ∧ state_after ICONS [lit "<!-- a.svg --><svg>"; lit "<!-- b.svg --></svg>"]
       = inr {| current_filename := Some (lit "b.svg");
                current_svg := [lit "<svg>"]; in_svg := true |}).
Proof.
  split; [split; [|split; [vm_compute; reflexivity | reflexivity]]
         | split; [|vm_compute; reflexivity]].
  - exists 0%nat, (lit "<svg>"). split; [reflexivity|]. split; [vm_compute; reflexivity|].
    intros [|j] l' _ Hl'; [|by destruct j].
    injection Hl' as <-. vm_compute. reflexivity.
  - intros (i & l & Hl & Ho & Hc).
    specialize (Hc 1%nat (lit "<!-- b.svg --></svg>")).
    destruct i as [|[|i]]; [| |done].
    + specialize (Hc ltac:(lia) eq_refl). vm_compute in Hc. discriminate Hc.
    + specialize (Hc ltac:(lia) eq_refl). vm_compute in Hc. discriminate Hc.
Qed.

(** C3 (amended). At every point of the scan, that is after every prefix
    [ls] of the lines, the loop has not raised, and
    - [in_svg] is true if and only if a marker line has been seen, with
      an opening tag on that line or after it, and no file written on that
      line or after it;
    - [current_filename] is set if and only if a marker line has been
      seen, and no file written on that line or after it. *)
Theorem C3_scan_invariant (output_dir : path) (ls : list str) :
  ∃ st,
    state_after output_dir ls = inr st
    ∧ (in_svg st = true ↔ opened output_dir ls)
    ∧ (is_Some (current_filename st) ↔ pending output_dir ls).
Proof.
  induction ls as [|l ls IH] using rev_ind.
  - exists init. split; [done|]. split; split; try done.
    + intros (pre & m & post & H & _). by destruct pre.
    + by intros [? ?].
    + intros (pre & m & post & H & _). by destruct pre.
  - destruct IH as (st & Hst & Hin & Hfn).
    destruct (loop_good output_dir ls ls init (good_init _) (reflexivity _))
      as (bs & st0 & Hgood & _ & Hl).
    unfold state_after in Hst. rewrite Hl in Hst. injection Hst as ->.
    destruct (step_effect output_dir ls st l Hgood)
      as [(ev & evs & Hs) | (st' & Hs & Hfn' & Hin')].
    + pose proof (loop_snoc output_dir _ _ _ _ _ _ Hl Hs) as Hl'.
      exists init. unfold state_after. rewrite Hl'. split; [done|].
      assert (¬ pending output_dir (ls ++ [l])) as Hnp.
      { apply (not_pending_after_write output_dir ls l ev evs).
        unfold events. by rewrite Hl', Hl. }
      split; split; try done.
      * intros H. exfalso. by apply Hnp, opened_pending.
      * by intros [? ?].
    + pose proof (loop_snoc output_dir _ _ _ _ _ _ Hl Hs) as Hl'.
      exists st'. unfold state_after. rewrite Hl'. split; [done|].
      assert (events output_dir (ls ++ [l]) = events output_dir ls) as He.
      { unfold events. rewrite Hl', Hl. simpl. by rewrite app_nil_r. }
      rewrite (opened_snoc output_dir ls l He), (pending_snoc output_dir ls l He).
      rewrite Hin', Hfn', Hin, Hfn. done.
Qed.

(* ===================================================================== *)
(* Further properties of the script                                      *)
(* ===================================================================== *)

(* --------------------------------------------------------------------- *)
(* 17. The marker pattern, in full                                       *)
(* --------------------------------------------------------------------- *)

Lemma star_inv_all {R} (k : cls) (cont : str → option R) (s : str) (r : R) :
  star k cont s = Some r →
  ∃ a b, s = a ++ b ∧ Forall (λ c, cls_match k c = true) a ∧ cont b = Some r.
Proof.
  induction s as [|c s IH]; simpl.
  - intros H. by exists [], [].
  - destruct (cls_match k c) eqn:Hc.
    + destruct (star k cont s) as [r'|] eqn:E.
      * intros [= <-]. destruct (IH eq_refl) as (a & b & -> & Ha & Hb).
        exists (c :: a), b. split; [done|]. split; [by constructor | done].
      * intros H. by exists [], (c :: s).
    + intros H. by exists [], (c :: s).
Qed.

Lemma any_no_newline (a : str) :
  Forall (λ c, cls_match CAny c = true) a → NL ∉ a.
Proof.
  induction 1 as [|c a Hc _ IH]; [apply not_elem_of_nil|].
  intros [Heq|Hin]%elem_of_cons; [|done]. subst c. vm_compute in Hc. discriminate Hc.
Qed.

(** A match of the marker pattern at the start of [s], piece by piece. *)
Lemma match_here_marker_shape (s : str) (r : option str) :
  match_here MARKER s None = Some r →
  ∃ ws stem ws' post,
    s = COMMENT_OPEN ++ ws ++ (stem ++ DOT_SVG) ++ ws' ++ COMMENT_CLOSE ++ post
    ∧ spaces ws ∧ spaces ws' ∧ stem ≠ [] ∧ (NL ∉ stem)
    ∧ r = Some (stem ++ DOT_SVG).
Proof.
  intros H. pose proof (match_here_marker s r H) as (stem0 & _ & Hr).
  unfold MARKER in H. cbn [match_here] in H.
  apply one_inv in H as (? & s1 & -> & ?%char_inv & H).
  apply one_inv in H as (? & s2 & -> & ?%char_inv & H).
  apply one_inv in H as (? & s3 & -> & ?%char_inv & H).
  apply one_inv in H as (? & s4 & -> & ?%char_inv & H).
  apply star_inv_all in H as (ws & b & -> & Hws & H).
  apply one_inv in H as (c & b1 & -> & Hc & H).
  apply star_inv_all in H as (a2 & b2 & -> & Ha2 & H).
  apply one_inv in H as (? & t1 & -> & ?%char_inv & H).
  apply one_inv in H as (? & t2 & -> & ?%char_inv & H).
  apply one_inv in H as (? & t3 & -> & ?%char_inv & H).
  apply one_inv in H as (? & t4 & -> & ?%char_inv & H).
  apply star_inv_all in H as (ws' & u & -> & Hws' & H).
  apply one_inv in H as (? & u1 & -> & ?%char_inv & H).
  apply one_inv in H as (? & u2 & -> & ?%char_inv & H).
  apply one_inv in H as (? & u3 & -> & ?%char_inv & H).
  injection H as <-. subst.
  exists ws, (c :: a2), ws', u3.
  assert (take (length (c :: a2 ++ 46 :: 115 :: 118 :: 103 :: ws' ++ 45 :: 45 :: 62 :: u3)
                - length (ws' ++ 45 :: 45 :: 62 :: u3))
               (c :: a2 ++ 46 :: 115 :: 118 :: 103 :: ws' ++ 45 :: 45 :: 62 :: u3)
          = (c :: a2) ++ DOT_SVG) as Htake.
  { replace (c :: a2 ++ 46 :: 115 :: 118 :: 103 :: ws' ++ 45 :: 45 :: 62 :: u3)
      with (((c :: a2) ++ DOT_SVG) ++ (ws' ++ 45 :: 45 :: 62 :: u3)).
    2:{ simpl. by rewrite <- app_assoc. }
    match goal with |- take ?n _ = _ =>
      replace n with (length ((c :: a2) ++ DOT_SVG)) end.
    - by rewrite take_app_length.
    - simpl. repeat (rewrite length_app; simpl). lia. }
  split.
  { unfold COMMENT_OPEN, COMMENT_CLOSE, DOT_SVG. simpl.
    do 4 f_equal. repeat (rewrite <- ?app_assoc; simpl). reflexivity. }
  split; [done|]. split; [done|]. split; [done|]. split.
  - apply (any_no_newline (c :: a2)). by constructor.
  - simpl. f_equal. exact Htake.
Qed.

(** X1. Whatever the marker pattern captures is the name of a comment of
    the line: the line holds [<!--], white space, the captured name, white
    space and [-->] in a row; the name ends in [.svg] after a non-empty
    stem, and has no newline in it. *)
Theorem X1_marker_sound (line name : str) :
  filename_match line = Some name →
  ∃ pre ws stem ws' post,
    line = pre ++ COMMENT_OPEN ++ ws ++ name ++ ws' ++ COMMENT_CLOSE ++ post
    ∧ spaces ws ∧ spaces ws'
    ∧ name = stem ++ DOT_SVG ∧ stem ≠ [] ∧ (NL ∉ name).
Proof.
  unfold filename_match.
  destruct (search MARKER line) as [[n|]|] eqn:E; [|done..].
  intros [= <-]. apply search_inv in E as (pre & b & -> & H).
  apply match_here_marker_shape in H
    as (ws & stem & ws' & post & -> & Hws & Hws' & Hne & Hnl & [= ->]).
  exists pre, ws, stem, ws', post. repeat (split; [done|]).
  intros [Hin|Hin]%elem_of_app; [done|].
  unfold DOT_SVG, NL in Hin.
  repeat (apply elem_of_cons in Hin as [Hin|Hin]; [done|]).
  by apply elem_of_nil in Hin.
Qed.

Lemma X1_witness :
  ∃ pre ws stem ws' post,
    lit "  <!-- 24x24-plus.svg --><svg>"
    = pre ++ COMMENT_OPEN ++ ws ++ lit "24x24-plus.svg" ++ ws' ++ COMMENT_CLOSE ++ post
    ∧ spaces ws ∧ spaces ws'
    ∧ lit "24x24-plus.svg" = stem ++ DOT_SVG ∧ stem ≠ []
    ∧ (NL ∉ lit "24x24-plus.svg").
Proof.
  apply (X1_marker_sound (lit "  <!-- 24x24-plus.svg --><svg>") (lit "24x24-plus.svg")).
  vm_compute. reflexivity.
Defined.

Lemma star_here {R} (k : cls) (cont : str → option R) (s : str) :
  is_Some (cont s) → is_Some (star k cont s).
Proof.
  intros H. destruct s as [|c s]; simpl; [done|].
  destruct (cls_match k c); [|done]. by destruct (star k cont s).
Qed.

(** A repetition gets through any text of its class to a place where the
    rest of the pattern matches. *)
Lemma star_is_Some {R} (k : cls) (cont : str → option R) (a b : str) :
  Forall (λ c, cls_match k c = true) a →
  is_Some (cont b) → is_Some (star k cont (a ++ b)).
Proof.
  intros Ha Hb. induction Ha as [|c a Hc _ IH]; simpl.
  - by apply star_here.
  - rewrite Hc. by destruct IH as [r ->].
Qed.

(** The longest repetition wins. *)
Lemma star_skip {R} (k : cls) (cont : str → option R) (a b : str) (r : R) :
  Forall (λ c, cls_match k c = true) a →
  star k cont b = Some r → star k cont (a ++ b) = Some r.
Proof.
  intros Ha Hb. induction Ha as [|c a Hc _ IH]; simpl; [done|].
  by rewrite Hc, IH.
Qed.

(** Where the rest of the pattern matches at no later place, the
    repetition takes nothing. *)
Lemma star_stop {R} (k : cls) (cont : str → option R) (b : str) :
  (∀ b1 b2, b = b1 ++ b2 → b1 ≠ [] → cont b2 = None) →
  star k cont b = cont b.
Proof.
  induction b as [|c b IH]; intros Hlater; simpl; [done|].
  destruct (cls_match k c); [|done].
  rewrite IH.
  - by rewrite (Hlater [c] b).
  - intros b1 b2 -> Hne. by apply (Hlater (c :: b1) b2).
Qed.

Lemma no_newline_any (a : str) :
  NL ∉ a → Forall (λ c, cls_match CAny c = true) a.
Proof.
  induction a as [|c a IH]; intros Hnl; constructor.
  - simpl. apply negb_true_iff, N.eqb_neq. intros ->. apply Hnl. left.
  - apply IH. intros H. apply Hnl. by right.
Qed.

Lemma search_here (p : list node) (s : str) (r : option str) :
  match_here p s None = Some r → search p s = Some r.
Proof. intros H. destruct s; simpl; by rewrite H. Qed.

Lemma search_is_Some (p : list node) (a b : str) :
  is_Some (match_here p b None) → is_Some (search p (a ++ b)).
Proof.
  intros [r Hr]. induction a as [|c a IH]; simpl app.
  - exists r. by apply search_here.
  - simpl. by destruct (match_here p (c :: a ++ b) None).
Qed.

(** The marker pattern matches at the start of a comment that names an
    [.svg] file. *)
Lemma match_here_comment (ws stem ws' post : str) :
  spaces ws → spaces ws' → stem ≠ [] → NL ∉ stem →
  is_Some (match_here MARKER
             (COMMENT_OPEN ++ ws ++ stem ++ after_stem ws' post) None).
Proof.
  intros Hws Hws' Hne Hnl. destruct stem as [|c stem]; [done|].
  apply no_newline_any in Hnl. apply Forall_cons in Hnl as [Hc Hstem].
  unfold MARKER, COMMENT_OPEN. cbn [match_here app one cls_match].
  rewrite !N.eqb_refl. apply star_is_Some; [exact Hws|].
  cbn [match_here app one]. rewrite Hc. apply star_is_Some; [exact Hstem|].
  unfold after_stem, DOT_SVG. cbn [match_here app one cls_match].
  rewrite !N.eqb_refl. apply star_is_Some; [exact Hws'|].
  unfold COMMENT_CLOSE. cbn [match_here app one cls_match].
  rewrite !N.eqb_refl. done.
Qed.

(** X2. A line that holds a comment naming an [.svg] file, that is
    [<!--], white space, a non-empty stem without newline, [.svg], white
    space and [-->] in a row, is a marker line, wherever the comment
    stands on the line. *)
Theorem X2_marker_complete (pre ws stem ws' post : str) :
  spaces ws → spaces ws' → stem ≠ [] → NL ∉ stem →
  is_marker (pre ++ COMMENT_OPEN ++ ws ++ stem ++ DOT_SVG ++ ws'
               ++ COMMENT_CLOSE ++ post) = true.
Proof.
  intros Hws Hws' Hne Hnl.
  destruct (search_is_Some MARKER pre _
              (match_here_comment ws stem ws' post Hws Hws' Hne Hnl))
    as [r Hr].
  unfold after_stem in Hr. unfold is_marker, filename_match. rewrite Hr.
  apply search_inv in Hr as (a & b & _ & Hb).
  by apply match_here_marker in Hb as (stem0 & _ & ->).
Qed.

Lemma X2_witness :
  is_marker (lit "<g>" ++ COMMENT_OPEN ++ lit "  " ++ lit "a b" ++ DOT_SVG
               ++ lit " " ++ COMMENT_CLOSE ++ lit "<svg>") = true.
Proof.
  apply (X2_marker_complete (lit "<g>") (lit "  ") (lit "a b") (lit " ") (lit "<svg>")).
  - by repeat constructor.
  - by repeat constructor.
  - done.
  - vm_compute. intros H.
    repeat (apply elem_of_cons in H as [H|H]; [discriminate H|]).
    by apply elem_of_nil in H.
Defined.

Lemma search_skip (pre s : str) :
  60 ∉ pre → search MARKER (pre ++ s) = search MARKER s.
Proof.
  induction pre as [|c pre IH]; intros Hpre; [done|].
  assert (c ≠ 60) as Hc by (intros ->; apply Hpre; left).
  assert (60 ∉ pre) as Hpre' by (intros H; apply Hpre; by right).
  simpl app. cbn [search]. unfold MARKER at 1. cbn [match_here one cls_match].
  destruct (N.eqb_spec 60 c) as [<-|_]; [done|]. by apply IH.
Qed.

(** The marker pattern from [\.svg] on, at the end of the stem. *)
Lemma match_here_name_end (g : option str) (ws' post : str) :
  spaces ws' →
  match_here
    [One (CChar 46); One (CChar 115); One (CChar 118); One (CChar 103);
     GClose; Star CSpace; One (CChar 45); One (CChar 45); One (CChar 62)]
    (after_stem ws' post) g
  = Some ((λ s0, take (length s0 - length (ws' ++ COMMENT_CLOSE ++ post)) s0) <$> g).
Proof.
  intros Hws'. unfold after_stem, DOT_SVG. cbn [match_here app one cls_match].
  rewrite !N.eqb_refl. apply star_skip; [exact Hws'|].
  unfold COMMENT_CLOSE. simpl app. cbn [star cls_match].
  replace (is_space 45) with false by (vm_compute; reflexivity).
  cbn [one cls_match]. by rewrite !N.eqb_refl.
Qed.

(** No match of [.svg], white space and [-->] starts later in the text
    after the stem, when no [-->] follows the comment. *)
Lemma no_later_name (g : option str) (ws' post b1 b2 : str) :
  spaces ws' →
  str_in COMMENT_CLOSE post = false →
  after_stem ws' post = b1 ++ b2 → b1 ≠ [] →
  match_here
    [One (CChar 46); One (CChar 115); One (CChar 118); One (CChar 103);
     GClose; Star CSpace; One (CChar 45); One (CChar 45); One (CChar 62)]
    b2 g = None.
Proof.
  intros Hws' Hpost Hsplit Hne.
  destruct (match_here _ b2 g) as [r|] eqn:E; [exfalso|done].
  cbn [match_here] in E.
  apply one_inv in E as (? & t1 & -> & ?%char_inv & E).
  apply one_inv in E as (? & t2 & -> & ?%char_inv & E).
  apply one_inv in E as (? & t3 & -> & ?%char_inv & E).
  apply one_inv in E as (? & t4 & -> & ?%char_inv & E).
  apply star_inv in E as (ws2 & u & -> & E).
  apply one_inv in E as (? & u1 & -> & ?%char_inv & E).
  apply one_inv in E as (? & u2 & -> & ?%char_inv & E).
  apply one_inv in E as (? & u3 & -> & ?%char_inv & E).
  subst. clear E.
  destruct b1 as [|c1 b1]; [done|]. clear Hne.
  unfold after_stem, DOT_SVG in Hsplit. simpl in Hsplit.
  injection Hsplit as <- Hsplit.
  assert (b1 ++ (46 :: 115 :: 118 :: 103 :: ws2 ++ 45 :: 45 :: 62 :: u3)
          = ([115; 118; 103] ++ ws' ++ COMMENT_CLOSE) ++ post) as Hs.
  { rewrite <- Hsplit. unfold COMMENT_CLOSE. simpl. by rewrite <- !app_assoc. }
  clear Hsplit.
  assert (∀ k, post = k ++ 46 :: 115 :: 118 :: 103 :: ws2 ++ 45 :: 45 :: 62 :: u3
               → False) as Hafter.
  { intros k Hk.
    assert (str_in COMMENT_CLOSE post = true) as Hin; [|by rewrite Hin in Hpost].
    apply str_in_occurs. exists (k ++ [46; 115; 118; 103] ++ ws2), u3.
    rewrite Hk. unfold COMMENT_CLOSE. simpl. rewrite <- !app_assoc. done. }
  apply app_eq_inv in Hs as [(k & _ & Hk) | (k & Hk & Hb2)].
  - (* the later match lies after the comment *)
    by apply (Hafter k).
  - destruct k as [|x k].
    + apply (Hafter []). symmetry. exact Hb2.
    + (* the later match starts inside the comment *)
      injection Hb2 as <- _.
      assert (46 ∈ [115; 118; 103] ++ ws' ++ COMMENT_CLOSE) as Hin.
      { rewrite Hk. apply elem_of_app. right. left. }
      apply elem_of_app in Hin as [Hin | [Hin | Hin]%elem_of_app].
      * repeat (apply elem_of_cons in Hin as [Hin|Hin]; [discriminate Hin|]).
        by apply elem_of_nil in Hin.
      * unfold spaces in Hws'. rewrite Forall_forall in Hws'.
        specialize (Hws' _ Hin). vm_compute in Hws'. discriminate Hws'.
      * unfold COMMENT_CLOSE in Hin.
        repeat (apply elem_of_cons in Hin as [Hin|Hin]; [discriminate Hin|]).
        by apply elem_of_nil in Hin.
Qed.

(** The marker pattern at the start of a comment whose stem starts with
    no white space, when no [-->] follows the comment. *)
Lemma match_here_exact (ws stem ws' post : str) (c : N) :
  spaces ws → spaces ws' → is_space c = false → NL ∉ c :: stem →
  str_in COMMENT_CLOSE post = false →
  match_here MARKER
    (COMMENT_OPEN ++ ws ++ (c :: stem) ++ after_stem ws' post) None
  = Some (Some ((c :: stem) ++ DOT_SVG)).
Proof.
  intros Hws Hws' Hsp Hnl Hpost.
  apply no_newline_any in Hnl. apply Forall_cons in Hnl as [Hc Hstem].
  unfold MARKER, COMMENT_OPEN. cbn [match_here app one cls_match].
  rewrite !N.eqb_refl. apply star_skip; [exact Hws|].
  cbn [star cls_match]. rewrite Hsp.
  cbn [match_here one]. rewrite Hc. apply star_skip; [exact Hstem|].
  rewrite star_stop.
  2:{ intros b1 b2 Hsplit Hne.
      by apply (no_later_name _ ws' post b1 b2). }
  change (match_here
            [One (CChar 46); One (CChar 115); One (CChar 118); One (CChar 103);
             GClose; Star CSpace; One (CChar 45); One (CChar 45); One (CChar 62)]
            (after_stem ws' post) (Some (c :: stem ++ after_stem ws' post))
          = Some (Some ((c :: stem) ++ DOT_SVG))).
  rewrite (match_here_name_end _ ws' post Hws'). simpl. do 2 f_equal.
  unfold after_stem.
  replace (c :: stem ++ DOT_SVG ++ ws' ++ COMMENT_CLOSE ++ post)
    with (((c :: stem) ++ DOT_SVG) ++ (ws' ++ COMMENT_CLOSE ++ post))
    by (simpl; by rewrite <- app_assoc).
  match goal with |- take ?n _ = _ =>
    replace n with (length ((c :: stem) ++ DOT_SVG)) end.
  - by rewrite take_app_length.
  - unfold DOT_SVG, COMMENT_CLOSE. simpl. repeat (rewrite length_app; simpl). lia.
Qed.

(** X3. For a line with one comment, [<!--], white space, a name
    [stem.svg], white space, [-->], the pattern captures exactly that
    name: provided no [<] stands before the comment, the stem starts with
    no white space and has no newline, and no [-->] follows the comment. *)
Theorem X3_marker_exact (pre ws stem ws' post : str) (c : N) :
  60 ∉ pre → spaces ws → spaces ws' →
  is_space c = false → NL ∉ c :: stem →
  str_in COMMENT_CLOSE post = false →
  filename_match (pre ++ COMMENT_OPEN ++ ws ++ (c :: stem) ++ DOT_SVG ++ ws'
                    ++ COMMENT_CLOSE ++ post)
  = Some ((c :: stem) ++ DOT_SVG).
Proof.
  intros Hpre Hws Hws' Hc Hnl Hpost. unfold filename_match.
  rewrite search_skip by done.
  pose proof (match_here_exact ws stem ws' post c Hws Hws' Hc Hnl Hpost) as H.
  unfold after_stem in H. by rewrite (search_here _ _ _ H).
Qed.

Lemma X3_witness :
  filename_match (lit "  " ++ COMMENT_OPEN ++ lit " " ++ (50 :: lit "4x24-plus")
                    ++ DOT_SVG ++ lit " " ++ COMMENT_CLOSE ++ lit "<svg x=1.5>")
  = Some ((50 :: lit "4x24-plus") ++ DOT_SVG).
Proof.
  apply (X3_marker_exact (lit "  ") (lit " ") (lit "4x24-plus") (lit " ")
           (lit "<svg x=1.5>") 50).
  - vm_compute. intros H.
    repeat (apply elem_of_cons in H as [H|H]; [discriminate H|]).
    by apply elem_of_nil in H.
  - by repeat constructor.
  - by repeat constructor.
  - vm_compute. reflexivity.
  - vm_compute. intros H.
    repeat (apply elem_of_cons in H as [H|H]; [discriminate H|]).
    by apply elem_of_nil in H.
  - vm_compute. reflexivity.
Defined.

(* --------------------------------------------------------------------- *)
(* 18. What a run writes                                                 *)
(* --------------------------------------------------------------------- *)

Lemma starts_with_in (sub s : str) :
  starts_with sub s = true → str_in sub s = true.
Proof.
  intros H. unfold str_in. destruct s; simpl; by rewrite H.
Qed.

Lemma from_tag_open (l : str) :
  has_open l = true → has_open (from_tag l) = true.
Proof.
  intros [i Hi]%str_in_find. unfold from_tag. rewrite Hi.
  apply starts_with_in. by apply (str_find_Some _ _ _ Hi).
Qed.

Lemma tidy_init (L : list str) : tidy L init.
Proof. split; [apply good_init | done]. Qed.

Section Written.

Variable output_dir : path.

(** One line, with all that is known of its outcome. *)
Lemma step_tidy (L : list str) (st : state) (line : str) :
  tidy L st → line ∈ L →
  (∃ st', step output_dir st line = inr (st', [])
          ∧ tidy L st'
          ∧ (named st' ≤ (if is_marker line then 1 else 0) + named st)%nat)
  ∨ (∃ name buf,
       step output_dir st line
       = inr (init, emit output_dir (name, join_with [NL] buf))
       ∧ captured L name ∧ block_lines L buf
       ∧ has_close line = true
       ∧ (1 ≤ (if is_marker line then 1 else 0) + named st)%nat).
Proof.
  intros [Hgood Hblock] HL. pose proof Hgood as [Hn Ho Hb].
  unfold is_marker, has_close, named.
  destruct (filename_match line) as [name|] eqn:Hm.
  - assert (captured L name) as Hcap by by exists line.
    destruct (str_in SVG_OPEN line) eqn:Hop.
    + assert (from_source L (from_tag line)) as Hsrc by (exists line; auto).
      pose proof (from_tag_open line Hop) as Hfo.
      destruct (str_in SVG_CLOSE line) eqn:Hcl.
      * destruct (step_marker_whole output_dir st _ _ Hm Hop Hcl) as (i & Hi & ->).
        right. exists name, [drop i line]. unfold from_tag in *. rewrite Hi in *.
        split; [done|]. split; [done|]. split; [|split; [done|lia]].
        exists (drop i line), []. split; [done|]. split; [done|]. by constructor.
      * destruct (step_marker_open output_dir st _ _ Hm Hop Hcl) as (i & Hi & ->).
        left. eexists. split; [done|]. unfold from_tag in *. rewrite Hi in *.
        split; [|simpl; lia]. split.
        -- split; simpl; [|done..]. by intros ? [= <-].
        -- intros _. simpl. exists (drop i line), [].
           split; [done|]. split; [done|]. by constructor.
    + rewrite (step_marker_only output_dir st _ _ Hm Hop).
      left. eexists. split; [done|]. split; [|simpl; lia]. split.
      * split; simpl; [|done..]. by intros ? [= <-].
      * done.
  - assert (from_source L line) as Hsrc by (exists line; auto).
    destruct (in_svg st) eqn:Hi.
    + destruct (Ho eq_refl) as [name Hname].
      destruct (Hblock eq_refl) as (x & rest & Hbuf & Hx & Hall).
      assert (block_lines L (current_svg st ++ [line])) as Hbl.
      { exists x, (rest ++ [line]). rewrite Hbuf. split; [done|]. split; [done|].
        rewrite <- Hbuf. apply Forall_app. split; [done|]. by constructor. }
      destruct (str_in SVG_CLOSE line) eqn:Hcl.
      * rewrite (step_close output_dir st _ _ Hm Hi Hname Hcl).
        right. exists name, (current_svg st ++ [line]).
        split; [done|]. split; [by apply Hn|]. split; [done|]. split; [done|].
        rewrite Hname. lia.
      * rewrite (step_collect output_dir st _ Hm Hi Hcl).
        left. eexists. split; [done|]. split; [|simpl; lia]. split; [|done].
        split; simpl; [done| |done]. intros _. by rewrite Hname.
    + destruct (str_in SVG_OPEN line && truthy (current_filename st)) eqn:Hg.
      * apply andb_true_iff in Hg as [Hop Ht].
        destruct (current_filename st) as [name|] eqn:Hname; [|done].
        assert (block_lines L [line]) as Hbl.
        { exists line, []. split; [done|]. split; [done|]. by constructor. }
        destruct (str_in SVG_CLOSE line) eqn:Hcl.
        -- rewrite (step_open_close output_dir st _ _ Hm Hi Hname Ht Hop Hcl).
           right. exists name, [line].
           split; [done|]. split; [by apply Hn|]. split; [done|]. split; [done|lia].
        -- rewrite (step_open output_dir st _ Hm Hi); [|by rewrite Hname|done..].
           left. eexists. split; [done|]. simpl. rewrite Hname.
           split; [|lia]. split; [|done].
           split; simpl; [|done..]. intros ? [= <-]. by apply Hn.
      * rewrite (step_skip output_dir st _ Hm Hi Hg).
        left. exists st. split; [done|]. split; [|lia]. split; [done|].
        by rewrite Hi.
Qed.

(** A run of lines, with all that is known of its outcome: it does not
    raise, every block it writes is named by a marker and made of source
    lines, there are no more blocks than lines with a closing tag, and no
    more than marker lines (a file name pending at the start counts as
    one, one pending at the end is taken off). *)
Lemma loop_tidy (L lines : list str) (st : state) :
  tidy L st → lines ⊆ L →
  ∃ bs st',
    loop output_dir st lines = (flat_map (emit output_dir) bs, inr st')
    ∧ tidy L st'
    ∧ Forall (λ b, captured L b.1
                   ∧ ∃ buf, b.2 = join_with [NL] buf ∧ block_lines L buf) bs
    ∧ (length bs ≤ count_lines has_close lines)%nat
    ∧ (length bs + named st' ≤ count_lines is_marker lines + named st)%nat.
Proof.
  revert st. induction lines as [|line rest IH]; intros st Ht HL.
  - exists [], st. split; [done|]. split; [done|]. split; [constructor|].
    unfold count_lines. simpl. lia.
  - assert (line ∈ L) as Hin by (apply HL; left).
    assert (rest ⊆ L) as Hrest by (intros x Hx; apply HL; by right).
    unfold count_lines in *. cbn [List.filter].
    destruct (step_tidy L st line Ht Hin)
      as [(st1 & Hs & Ht1 & Hnamed)
         | (name & buf & Hs & Hcap & Hbl & Hcl & Hnamed)].
    + destruct (IH _ Ht1 Hrest) as (bs & st2 & Hl & Ht2 & Hbs & Hc1 & Hc2).
      exists bs, st2. cbn [loop]. rewrite Hs, Hl.
      split; [done|]. split; [done|]. split; [done|]. split.
      * destruct (has_close line); simpl; lia.
      * destruct (is_marker line); simpl; lia.
    + destruct (IH _ (tidy_init L) Hrest) as (bs & st2 & Hl & Ht2 & Hbs & Hc1 & Hc2).
      exists ((name, join_with [NL] buf) :: bs), st2. cbn [loop]. rewrite Hs, Hl.
      split; [done|]. split; [done|]. split.
      * constructor; [|done]. split; [done|]. by exists buf.
      * rewrite Hcl. change (named init) with 0%nat in Hc2.
        destruct (is_marker line); simpl in *; lia.
Qed.

End Written.

Lemma split_on_nonempty (sep : N) (s : str) : split_on sep s ≠ [].
Proof.
  induction s as [|c s IH]; simpl; [done|].
  destruct (c =? sep); [done|]. by destruct (split_on sep s).
Qed.

(** No piece of a split text holds the separator. *)
Lemma split_on_no_sep (sep : N) (s : str) :
  Forall (λ x, sep ∉ x) (split_on sep s).
Proof.
  induction s as [|c s IH]; simpl.
  - constructor; [apply not_elem_of_nil | constructor].
  - destruct (N.eqb_spec c sep) as [->|Hne].
    + constructor; [apply not_elem_of_nil | done].
    + destruct (split_on sep s) as [|w ws] eqn:E;
        [by apply split_on_nonempty in E|].
      apply Forall_cons in IH as [Hw Hws]. constructor; [|done].
      intros [Heq|Hin]%elem_of_cons; [by subst | done].
Qed.

Lemma split_on_app_sep (sep : N) (x t : str) :
  sep ∉ x → split_on sep (x ++ sep :: t) = x :: split_on sep t.
Proof.
  induction x as [|c x IH]; intros Hx; simpl.
  - by rewrite N.eqb_refl.
  - destruct (N.eqb_spec c sep) as [->|Hne]; [exfalso; apply Hx; left|].
    rewrite IH; [done|]. intros H. apply Hx. by right.
Qed.

(** Joining lines and splitting the text gives the lines back. *)
Lemma split_on_join (sep : N) (xs : list str) :
  xs ≠ [] → Forall (λ x, sep ∉ x) xs →
  split_on sep (join_with [sep] xs) = xs.
Proof.
  induction xs as [|x xs IH]; [done|]. intros _ [Hx Hxs]%Forall_cons.
  destruct xs as [|y xs].
  - by apply split_on_plain.
  - change (join_with [sep] (x :: y :: xs))
      with (x ++ sep :: join_with [sep] (y :: xs)).
    rewrite split_on_app_sep by done. by rewrite IH.
Qed.

(** Splitting a text and joining the lines gives the text back. *)
Lemma join_split_on (sep : N) (s : str) :
  join_with [sep] (split_on sep s) = s.
Proof.
  induction s as [|c s IH]; [done|]. simpl.
  pose proof (split_on_nonempty sep s) as Hne.
  destruct (N.eqb_spec c sep) as [->|Hc];
    destruct (split_on sep s) as [|w ws]; try done.
  - simpl. by rewrite <- IH.
  - rewrite <- IH. by destruct ws.
Qed.

Lemma from_source_no_newline (content x : str) :
  from_source (split_on NL content) x → NL ∉ x.
Proof.
  intros (l & Hl & Hx).
  pose proof (split_on_no_sep NL content) as Hall.
  rewrite Forall_forall in Hall. specialize (Hall l Hl).
  destruct Hx as [->| ->]; [done|].
  unfold from_tag. destruct (str_find SVG_OPEN l) as [i|]; [|done].
  intros Hin. apply Hall. rewrite <- (take_drop i l). apply elem_of_app. by right.
Qed.

Lemma join_with_head_in (sub x : str) (rest : list str) :
  str_in sub x = true → str_in sub (join_with [NL] (x :: rest)) = true.
Proof.
  intros (a & b & ->)%str_in_occurs. apply str_in_occurs.
  destruct rest as [|y rest].
  - by exists a, b.
  - exists a, (b ++ NL :: join_with [NL] (y :: rest)).
    change (join_with [NL] ((a ++ sub ++ b) :: y :: rest))
      with ((a ++ sub ++ b) ++ NL :: join_with [NL] (y :: rest)).
    by rewrite <- !app_assoc.
Qed.

(** X4. At every point of the scan the loop has not raised, the buffer is
    non-empty exactly while a block is open, an open block has a file
    name (so the join with the output directory is never asked for
    [None]), the first line of the buffer holds the opening tag, and every
    line of the buffer is a line seen so far, whole or from its first
    opening tag on. *)
Theorem X4_buffer_invariant (output_dir : path) (ls : list str) :
  ∃ st,
    state_after output_dir ls = inr st
    ∧ (in_svg st = true ↔ current_svg st ≠ [])
    ∧ (in_svg st = true → is_Some (current_filename st))
    ∧ (∀ x rest, current_svg st = x :: rest → has_open x = true)
    ∧ Forall (from_source ls) (current_svg st).
Proof.
  destruct (loop_tidy output_dir ls ls init (tidy_init _) (reflexivity _))
    as (bs & st & Hl & [[Hn Ho Hb] Hbl] & _).
  exists st. unfold state_after. rewrite Hl. split; [done|].
  destruct (in_svg st) eqn:Hi.
  - destruct (Hbl eq_refl) as (x & rest & Hbuf & Hx & Hall).
    rewrite Hbuf. split; [done|]. split; [by auto|]. split; [|by rewrite <- Hbuf].
    by intros ? ? [= <- <-].
  - rewrite (Hb eq_refl). split; [done|]. split; [done|]. split; [done|constructor].
Qed.

(** X5. Every file a run writes is made of lines of the source: split at
    its newlines, the text is a non-empty list of lines, each of them a
    line of the source, whole or from its first opening tag on, and the
    first of them holds the opening tag. *)
Theorem X5_written_from_source
    (output_dir : path) (content : str) (p : path) (text : str) :
  (p, text) ∈ written (main output_dir content).1 →
  ∃ first rest,
    split_on NL text = first :: rest
    ∧ has_open first = true
    ∧ Forall (from_source (split_on NL content)) (first :: rest)
    ∧ str_in SVG_OPEN text = true.
Proof.
  destruct (loop_tidy output_dir _ (split_on NL content) init
              (tidy_init _) (reflexivity _))
    as (bs & st & Hl & _ & Hbs & _).
  unfold main. rewrite Hl. cbn [fst].
  rewrite written_app, written_emit. simpl. rewrite app_nil_r.
  intros ([name c] & [= -> ->] & Hb)%list_elem_of_fmap.
  rewrite Forall_forall in Hbs.
  destruct (Hbs _ Hb) as (_ & buf & Htext & x & rest & -> & Hx & Hall).
  cbn [snd] in Htext. subst c. exists x, rest.
  split; [|split; [done|split; [done|by apply join_with_head_in]]].
  apply (split_on_join NL (x :: rest)); [done|].
  eapply Forall_impl; [exact Hall|]. intros y Hy.
  by eapply from_source_no_newline.
Qed.

Lemma X5_witness :
  ∃ first rest,
    split_on NL (join_with [NL] [lit "<svg x=" ++ quoted (lit "2") ++ lit ">";
                                 lit "<path/>"; lit "</svg>"])
    = first :: rest
    ∧ has_open first = true
    ∧ Forall (from_source (split_on NL sheet_example)) (first :: rest)
    ∧ str_in SVG_OPEN
        (join_with [NL] [lit "<svg x=" ++ quoted (lit "2") ++ lit ">";
                         lit "<path/>"; lit "</svg>"]) = true.
Proof.
  apply (X5_written_from_source ICONS sheet_example (truediv ICONS (lit "b.svg"))).
  vm_compute. right. left.
Defined.

(** X6. A run writes at most as many files as the source has marker
    lines, and at most as many as it has lines with a closing tag. *)
Theorem X6_writes_bounded (output_dir : path) (content : str) :
  (length (written (main output_dir content).1)
   ≤ count_lines is_marker (split_on NL content))%nat
  ∧ (length (written (main output_dir content).1)
     ≤ count_lines has_close (split_on NL content))%nat.
Proof.
  destruct (loop_tidy output_dir _ (split_on NL content) init
              (tidy_init _) (reflexivity _))
    as (bs & st & Hl & _ & _ & Hc1 & Hc2).
  unfold main. rewrite Hl. cbn [fst].
  rewrite written_app, written_emit, length_app, length_fmap. simpl.
  change (named init) with 0%nat in Hc2. lia.
Qed.

(* --------------------------------------------------------------------- *)
(* 19. Sheets put together                                               *)
(* --------------------------------------------------------------------- *)

(** The lines of two texts joined by a newline are the lines of the one
    followed by the lines of the other. *)
Lemma split_on_app (sep : N) (a b : str) :
  split_on sep (a ++ sep :: b) = split_on sep a ++ split_on sep b.
Proof.
  induction a as [|c a IH]; simpl.
  - by rewrite N.eqb_refl.
  - rewrite IH. destruct (c =? sep); [done|].
    destruct (split_on sep a) as [|w ws] eqn:E; [|done].
    by apply split_on_nonempty in E.
Qed.

Section Compose.

Variable output_dir : path.

(** When the scan of the first lines ends with the loop variables reset,
    the scan of all lines does what the two scans do one after the other. *)
Lemma loop_restart (l1 l2 : list str) (e1 : list event) :
  loop output_dir init l1 = (e1, inr init) →
  loop output_dir init (l1 ++ l2)
  = (e1 ++ (loop output_dir init l2).1, (loop output_dir init l2).2).
Proof.
  intros H1. rewrite loop_app, H1. by destruct (loop output_dir init l2).
Qed.

Lemma main_events (content : str) :
  ∃ bs st,
    loop output_dir init (split_on NL content)
    = (flat_map (emit output_dir) bs, inr st)
    ∧ good (split_on NL content) st
    ∧ main output_dir content
      = (flat_map (emit output_dir) bs ++ [EPrint DONE_MSG], None).
Proof.
  destruct (loop_good output_dir _ (split_on NL content) init
              (good_init _) (reflexivity _))
    as (bs & st & Hg & _ & Hl).
  exists bs, st. split; [done|]. split; [done|]. unfold main. by rewrite Hl.
Qed.

(** An empty line never writes. *)
Lemma step_empty_line (L : list str) (st : state) :
  good L st → ∃ st', step output_dir st [] = inr (st', []).
Proof.
  intros [Hn Ho Hb].
  assert (filename_match [] = None) as Hm by (vm_compute; reflexivity).
  destruct (in_svg st) eqn:Hi.
  - eexists. by apply step_collect.
  - exists st. by apply step_skip.
Qed.

End Compose.

(** X9. Well-formed sheets compose: when a well-formed sheet is followed,
    after a newline, by any other text, the run on the whole writes what
    the run on the sheet writes and then what the run on the other text
    writes, and does not raise. *)
Theorem X9_sheets_compose
    (output_dir : path) (sheet other : str) (sgs : list segment) :
  split_on NL sheet = flat_map seg_lines sgs →
  forallb seg_ok sgs = true →
  written (main output_dir (sheet ++ NL :: other)).1
  = written (main output_dir sheet).1 ++ written (main output_dir other).1
  ∧ (main output_dir (sheet ++ NL :: other)).2 = None.
Proof.
  intros Hsplit Hok.
  destruct (loop_segments output_dir sgs Hok) as [Hl1 _].
  rewrite <- Hsplit in Hl1.
  destruct (main_events output_dir other) as (bs2 & st2 & Hl2 & _ & Hm2).
  assert (main output_dir sheet
          = (flat_map (emit output_dir) (blocks sgs) ++ [EPrint DONE_MSG], None))
    as Hm1 by (unfold main; by rewrite Hl1).
  assert (main output_dir (sheet ++ NL :: other)
          = (flat_map (emit output_dir) (blocks sgs)
             ++ flat_map (emit output_dir) bs2 ++ [EPrint DONE_MSG], None))
    as Hm.
  { unfold main. rewrite split_on_app, (loop_restart _ _ _ _ Hl1), Hl2. simpl.
    by rewrite <- app_assoc. }
  rewrite Hm, Hm1, Hm2. cbn [fst snd]. split; [|done].
  rewrite !written_app, !written_emit. simpl. by rewrite !app_nil_r.
Qed.

Lemma X9_witness :
  written (main ICONS (sheet_example ++ NL :: lit "<!-- c.svg --><svg/></svg>")).1
  = written (main ICONS sheet_example).1
    ++ written (main ICONS (lit "<!-- c.svg --><svg/></svg>")).1
  ∧ (main ICONS (sheet_example ++ NL :: lit "<!-- c.svg --><svg/></svg>")).2 = None.
Proof.
  apply (X9_sheets_compose ICONS sheet_example (lit "<!-- c.svg --><svg/></svg>")
           [AfterMarker (lit "<!-- a.svg -->") []
              (lit "<svg x=" ++ quoted (lit "1") ++ lit "><path/></svg>") OneLine;
            OnMarker (lit "<!-- b.svg --><svg x=" ++ quoted (lit "2") ++ lit ">")
              (More [lit "<path/>"] (lit "</svg>"))]);
    vm_compute; reflexivity.
Defined.

(** X10. A newline at the end of the source changes nothing: the empty
    last line it adds writes nothing and prints nothing. *)
Theorem X10_trailing_newline (output_dir : path) (content : str) :
  main output_dir (content ++ [NL]) = main output_dir content.
Proof.
  destruct (main_events output_dir content) as (bs & st & Hl & Hg & Hm).
  rewrite Hm. unfold main. rewrite split_on_app, loop_app, Hl.
  simpl split_on. cbn [loop].
  destruct (step_empty_line output_dir _ st Hg) as [st' ->].
  simpl. by rewrite app_nil_r.
Qed.

(* --------------------------------------------------------------------- *)
(* 20. Nothing is reformatted                                            *)
(* --------------------------------------------------------------------- *)

Lemma join_with_app (sep : str) (xs ys : list str) :
  xs ≠ [] → ys ≠ [] →
  join_with sep (xs ++ ys) = join_with sep xs ++ sep ++ join_with sep ys.
Proof.
  intros Hxs Hys. induction xs as [|x xs IH]; [done|].
  destruct xs as [|x' xs].
  - destruct ys; [done|]. done.
  - change (join_with sep ((x :: x' :: xs) ++ ys))
      with (x ++ sep ++ join_with sep ((x' :: xs) ++ ys)).
    rewrite IH by done.
    change (join_with sep (x :: x' :: xs))
      with (x ++ sep ++ join_with sep (x' :: xs)).
    by rewrite <- !app_assoc.
Qed.

(** The join of some lines in a row is one piece of the join of all. *)
Lemma join_with_middle (sep : str) (A B C : list str) :
  B ≠ [] →
  ∃ a z, join_with sep (A ++ B ++ C) = a ++ join_with sep B ++ z.
Proof.
  intros HB.
  assert (∃ z, join_with sep (B ++ C) = join_with sep B ++ z) as [z Hz].
  { destruct C as [|c C].
    - exists []. by rewrite !app_nil_r.
    - eexists. by rewrite join_with_app. }
  destruct A as [|x A].
  - exists [], z. simpl. by rewrite Hz.
  - exists (join_with sep (x :: A) ++ sep), z.
    rewrite join_with_app; [|done|by destruct B].
    by rewrite Hz, <- !app_assoc.
Qed.

(** A block that starts at the opening tag of its first line is the end
    of the lines joined whole. *)
Lemma join_with_from_tag (m : str) (T : list str) :
  ∃ a, join_with [NL] (m :: T) = a ++ join_with [NL] (from_tag m :: T).
Proof.
  unfold from_tag. destruct (str_find SVG_OPEN m) as [i|]; [|by exists []].
  exists (take i m). destruct T as [|t T].
  - simpl. by rewrite take_drop.
  - change (join_with [NL] (m :: t :: T))
      with (m ++ [NL] ++ join_with [NL] (t :: T)).
    change (join_with [NL] (drop i m :: t :: T))
      with (drop i m ++ [NL] ++ join_with [NL] (t :: T)).
    rewrite <- (take_drop i m) at 1. by rewrite <- app_assoc.
Qed.

(** The text of a pair is one piece of the joined lines of its sheet. *)
Lemma seg_block_verbatim (A C : list str) (sg : segment) (b : str * str) :
  seg_block sg = Some b →
  ∃ a z, join_with [NL] (A ++ seg_lines sg ++ C) = a ++ b.2 ++ z.
Proof.
  destruct sg as [l | m t | m gap first t]; cbn [seg_block seg_lines]; [done| |].
  - destruct (filename_match m) as [name|]; cbn [mbind option_bind]; [|done].
    intros [= <-]. cbn [snd].
    unfold block_text.
    destruct (join_with_middle [NL] A (m :: tail_lines t) C) as (a & z & ->); [done|].
    destruct (join_with_from_tag m (tail_lines t)) as [a' ->].
    exists (a ++ a'), z. by rewrite <- !app_assoc.
  - destruct (filename_match m) as [name|]; cbn [mbind option_bind]; [|done].
    intros [= <-]. cbn [snd].
    unfold block_text.
    replace (A ++ (m :: gap ++ first :: tail_lines t) ++ C)
      with ((A ++ m :: gap) ++ (first :: tail_lines t) ++ C)
      by (rewrite <- !app_assoc; simpl; by rewrite <- !app_assoc).
    by apply join_with_middle.
Qed.

(** X11. On a well-formed sheet nothing is reformatted: the text of every
    file the run writes stands in the source as it is, in one piece. *)
Theorem X11_written_verbatim
    (output_dir : path) (content : str) (sgs : list segment)
    (p : path) (text : str) :
  split_on NL content = flat_map seg_lines sgs →
  forallb seg_ok sgs = true →
  (p, text) ∈ written (main output_dir content).1 →
  ∃ a z, content = a ++ text ++ z.
Proof.
  intros Hsplit Hok.
  destruct (loop_segments output_dir sgs Hok) as [Hl _].
  unfold main. rewrite Hsplit, Hl. cbn [fst].
  rewrite written_app, written_emit. simpl. rewrite app_nil_r.
  intros (b & [= -> ->] & Hb)%list_elem_of_fmap.
  unfold blocks in Hb. apply list_elem_of_omap in Hb as (sg & Hsg & Hblock).
  apply list_elem_of_split in Hsg as (s1 & s2 & ->).
  rewrite <- (join_split_on NL content), Hsplit.
  rewrite flat_map_app. cbn [flat_map].
  by apply seg_block_verbatim.
Qed.

Lemma X11_witness :
  ∃ a z,
    sheet_example
    = a ++ join_with [NL] [lit "<svg x=" ++ quoted (lit "2") ++ lit ">";
                           lit "<path/>"; lit "</svg>"] ++ z.
Proof.
  apply (X11_written_verbatim ICONS sheet_example
           [AfterMarker (lit "<!-- a.svg -->") []
              (lit "<svg x=" ++ quoted (lit "1") ++ lit "><path/></svg>") OneLine;
            OnMarker (lit "<!-- b.svg --><svg x=" ++ quoted (lit "2") ++ lit ">")
              (More [lit "<path/>"] (lit "</svg>"))]
           (truediv ICONS (lit "b.svg"))).
  - vm_compute. reflexivity.
  - vm_compute. reflexivity.
  - vm_compute. right. left.
Defined.

(* --------------------------------------------------------------------- *)
(* 21. The path of a file                                                *)
(* --------------------------------------------------------------------- *)

(** A text that does not start with a slash has no root. *)
Lemma splitroot_relative (c : N) (t : str) :
  c ≠ SLASH → splitroot (c :: t) = ([], c :: t).
Proof.
  intros Hc. unfold splitroot.
  destruct c as [|p]; [done|].
  repeat (destruct p as [p|p|]; try done).
Qed.

(** A text that starts with a slash has a root. *)
Lemma splitroot_absolute (t : str) :
  (splitroot (SLASH :: t)).1 ≠ [].
Proof.
  unfold splitroot, SLASH.
  destruct t as [|c1 t]; [done|].
  destruct (decide (c1 = 47)) as [->|H1].
  - destruct t as [|c2 t]; [done|].
    destruct (decide (c2 = 47)) as [->|H2]; [done|].
    destruct c2 as [|p]; [done|].
    repeat (destruct p as [p|p|]; try done).
  - destruct c1 as [|p]; [done|].
    repeat (destruct p as [p|p|]; try done).
Qed.

Lemma parse_plain (name : str) :
  name ≠ [] → name ≠ DOT → SLASH ∉ name →
  parse name = {| root := []; parts := [name] |}.
Proof.
  intros Hne Hdot Hslash. destruct name as [|c t]; [done|].
  unfold parse. rewrite splitroot_relative.
  2:{ intros ->. apply Hslash. left. }
  unfold parse_parts. rewrite split_on_plain by done. simpl.
  unfold str_eqb. rewrite !bool_decide_eq_false_2 by done. done.
Qed.

(** The path string of a path with components. *)
Lemma path_str_parts (p : path) :
  parts p ≠ [] → path_str p = root p ++ join_with [SLASH] (parts p).
Proof. unfold path_str. by destruct (root p), (parts p). Qed.

(** X12. A captured file name without slash is joined to the output
    directory as one more component: the file lies in the directory
    itself, and its path string is the directory's, a slash and the
    name (for a directory with at least one component). *)
Theorem X12_plain_name (output_dir : path) (line name : str) :
  filename_match line = Some name →
  SLASH ∉ name →
  truediv output_dir name
  = {| root := root output_dir; parts := parts output_dir ++ [name] |}
  ∧ (parts output_dir ≠ [] →
     path_str (truediv output_dir name)
     = path_str output_dir ++ SLASH :: name).
Proof.
  intros Hm Hslash.
  destruct (filename_match_svg _ _ Hm) as (stem & Hstem & ->).
  assert (truediv output_dir (stem ++ DOT_SVG)
          = {| root := root output_dir;
               parts := parts output_dir ++ [stem ++ DOT_SVG] |}) as Hdiv.
  { unfold truediv. rewrite parse_plain; [done| | |done].
    - by destruct stem.
    - intros E. apply (f_equal length) in E. rewrite length_app in E.
      simpl in E. lia. }
  split; [done|]. intros Hparts. rewrite Hdiv.
  rewrite !path_str_parts; [|done|by destruct (parts output_dir)].
  cbn [root parts]. rewrite join_with_app by done.
  by rewrite <- !app_assoc.
Qed.

Lemma X12_witness :
  truediv ICONS (lit "24x24-plus.svg")
  = {| root := root ICONS; parts := parts ICONS ++ [lit "24x24-plus.svg"] |}
  ∧ (parts ICONS ≠ [] →
     path_str (truediv ICONS (lit "24x24-plus.svg"))
     = path_str ICONS ++ SLASH :: lit "24x24-plus.svg").
Proof.
  apply (X12_plain_name ICONS (lit "<!-- 24x24-plus.svg -->") (lit "24x24-plus.svg")).
  - vm_compute. reflexivity.
  - vm_compute. intros H.
    repeat (apply elem_of_cons in H as [H|H]; [discriminate H|]).
    by apply elem_of_nil in H.
Defined.

(** X13. A marker that names a file by an absolute path has its block
    written to that path, whatever the output directory is: a marker line
    with both tags writes the line from its first opening tag on to the
    parsed name, not below [output_dir]. *)
Theorem X13_absolute_name
    (output_dir : path) (st : state) (line rest : str) :
  filename_match line = Some (SLASH :: rest) →
  has_open line = true →
  has_close line = true →
  step output_dir st line
  = inr (init, [EWrite (parse (SLASH :: rest)) (from_tag line);
                EPrint (CREATED ++ SLASH :: rest)])
  ∧ root (parse (SLASH :: rest)) ≠ [].
Proof.
  intros Hm Ho Hc.
  destruct (step_marker_whole output_dir st _ _ Hm Ho Hc) as (i & Hi & ->).
  unfold from_tag. rewrite Hi.
  pose proof (splitroot_absolute rest) as Hr.
  assert (root (parse (SLASH :: rest)) = (splitroot (SLASH :: rest)).1) as Hroot
    by (unfold parse; by destruct (splitroot (SLASH :: rest))).
  split; [|by rewrite Hroot].
  unfold truediv. rewrite Hroot.
  by destruct (splitroot (SLASH :: rest)).1.
Qed.

Lemma X13_witness :
  step ICONS init (lit "<!-- /tmp/x.svg --><svg></svg>")
  = inr (init, [EWrite (parse (SLASH :: lit "tmp/x.svg"))
                  (from_tag (lit "<!-- /tmp/x.svg --><svg></svg>"));
                EPrint (CREATED ++ SLASH :: lit "tmp/x.svg")])
  ∧ root (parse (SLASH :: lit "tmp/x.svg")) ≠ [].
Proof.
  apply (X13_absolute_name ICONS init (lit "<!-- /tmp/x.svg --><svg></svg>")
           (lit "tmp/x.svg")); vm_compute; reflexivity.
Defined.

(* --------------------------------------------------------------------- *)
(* 22. What the output directory does not change                         *)
(* --------------------------------------------------------------------- *)

(** The blocks a line writes are the same for every output directory. *)
Lemma step_blocks (L : list str) (st : state) (line : str) :
  good L st → line ∈ L →
  ∃ st' bl, good L st'
    ∧ ∀ d, step d st line = inr (st', flat_map (emit d) bl).
Proof.
  intros Hst HL. pose proof Hst as [Hn Ho Hb].
  destruct (filename_match line) as [name|] eqn:Hm.
  - assert (captured L name) as Hcap by by exists line.
    destruct (str_in SVG_OPEN line) eqn:Hop.
    + destruct (str_in_find _ _ Hop) as [i Hi].
      destruct (str_in SVG_CLOSE line) eqn:Hcl.
      * exists init, [(name, drop i line)]. split; [apply good_init|]. intros d.
        destruct (step_marker_whole d st _ _ Hm Hop Hcl) as (j & Hj & ->).
        rewrite Hi in Hj. by injection Hj as <-.
      * eexists _, []. split; [|intros d].
        2:{ destruct (step_marker_open d st _ _ Hm Hop Hcl) as (j & Hj & ->).
            rewrite Hi in Hj. injection Hj as <-. reflexivity. }
        split; simpl; [|done..]. by intros ? [= <-].
    + eexists _, []. split; [|intros d; by apply step_marker_only].
      split; simpl; [|done..]. by intros ? [= <-].
  - destruct (in_svg st) eqn:Hi.
    + destruct (Ho eq_refl) as [name Hname].
      destruct (str_in SVG_CLOSE line) eqn:Hcl.
      * exists init, [(name, join_with [NL] (current_svg st ++ [line]))].
        split; [apply good_init|]. intros d. by apply step_close.
      * eexists _, []. split; [|intros d; by apply step_collect].
        split; simpl; [done| |done]. intros _. by rewrite Hname.
    + destruct (str_in SVG_OPEN line && truthy (current_filename st)) eqn:Hg.
      * apply andb_true_iff in Hg as [Hop Ht].
        destruct (current_filename st) as [name|] eqn:Hname; [|done].
        destruct (str_in SVG_CLOSE line) eqn:Hcl.
        -- exists init, [(name, line)]. split; [apply good_init|]. intros d.
           by apply step_open_close.
        -- eexists _, []. split.
           2:{ intros d. apply step_open; [done|done| |done|done].
               by rewrite Hname. }
           split; simpl; [|done..]. rewrite Hname. intros ? [= <-]. by apply Hn.
      * exists st, []. split; [done|]. intros d. by apply step_skip.
Qed.

Lemma loop_blocks (L lines : list str) (st : state) :
  good L st → lines ⊆ L →
  ∃ bs st', ∀ d, loop d st lines = (flat_map (emit d) bs, inr st').
Proof.
  revert st. induction lines as [|line rest IH]; intros st Hg HL.
  - by exists [], st.
  - assert (line ∈ L) as Hin by (apply HL; left).
    assert (rest ⊆ L) as Hrest by (intros x Hx; apply HL; by right).
    destruct (step_blocks L st line Hg Hin) as (st1 & bl & Hg1 & Hs).
    destruct (IH _ Hg1 Hrest) as (bs & st2 & Hl).
    exists (bl ++ bs), st2. intros d. cbn [loop].
    by rewrite Hs, Hl, flat_map_app.
Qed.

(** X14. The output directory decides where the files go and nothing
    else: for two directories, a run prints the same lines and writes the
    same texts, in the same order. *)
Theorem X14_directory_only_places (d1 d2 : path) (content : str) :
  printed (main d1 content).1 = printed (main d2 content).1
  ∧ (snd <$> written (main d1 content).1) = (snd <$> written (main d2 content).1).
Proof.
  destruct (loop_blocks _ (split_on NL content) init (good_init _) (reflexivity _))
    as (bs & st & Hl).
  unfold main. rewrite !Hl. cbn [fst].
  rewrite !printed_app, !printed_emit, !written_app, !written_emit.
  split; [done|]. simpl. rewrite !app_nil_r, <- !list_fmap_compose.
  done.
Qed.

(* --------------------------------------------------------------------- *)
(* 23. Markers and blocks that lead to nothing                           *)
(* --------------------------------------------------------------------- *)

(** A marker line does not look at the file name that is pending. *)
Lemma step_marker_forgets (output_dir : path) (st : state) (x : option str)
    (m name : str) :
  filename_match m = Some name →
  step output_dir {| current_filename := x; current_svg := current_svg st;
                     in_svg := in_svg st |} m
  = step output_dir st m.
Proof. intros Hm. unfold step. by rewrite Hm. Qed.

(** X15. A marker without opening tag is forgotten when the next marker
    comes before any opening tag: outside a block, with only lines
    without marker and opening tag between the two, the scan goes on as if
    the first marker line were not there. *)
Theorem X15_marker_overwritten
    (output_dir : path) (st : state) (m1 n1 : str) (gap : list str)
    (m2 : str) (rest : list str) :
  in_svg st = false →
  filename_match m1 = Some n1 →
  has_open m1 = false →
  forallb (λ l, negb (is_marker l) && negb (has_open l)) gap = true →
  is_marker m2 = true →
  loop output_dir st (m1 :: gap ++ m2 :: rest)
  = loop output_dir st (gap ++ m2 :: rest).
Proof.
  intros Hi Hm1 Ho1 Hgap [n2 Hm2]%is_marker_true.
  cbn [loop]. rewrite (step_marker_only output_dir st _ _ Hm1 Ho1).
  rewrite !loop_app.
  rewrite (loop_gap output_dir gap st Hi Hgap).
  rewrite (loop_gap output_dir gap
             {| current_filename := Some n1; current_svg := current_svg st;
                in_svg := in_svg st |} Hi Hgap).
  cbn [loop app].
  rewrite (step_marker_forgets output_dir st (Some n1) m2 n2 Hm2).
  destruct (step output_dir st m2) as [e | [st' evs]]; [done|].
  by destruct (loop output_dir st' rest).
Qed.

Lemma X15_witness :
  loop ICONS init
    (lit "<!-- a.svg -->" :: [lit ""] ++ lit "<!-- b.svg -->" :: [lit "<svg></svg>"])
  = loop ICONS init ([lit ""] ++ lit "<!-- b.svg -->" :: [lit "<svg></svg>"]).
Proof.
  apply (X15_marker_overwritten ICONS init (lit "<!-- a.svg -->") (lit "a.svg")
           [lit ""] (lit "<!-- b.svg -->") [lit "<svg></svg>"]);
    vm_compute; reflexivity.
Defined.

Lemma count_lines_none (f : str → bool) (ls : list str) :
  forallb (λ l, negb (f l)) ls = true → count_lines f ls = 0%nat.
Proof.
  unfold count_lines. induction ls as [|l ls IH]; [done|].
  cbn [forallb List.filter]. intros [Hl Hls]%andb_true_iff.
  apply negb_true_iff in Hl. rewrite Hl. by apply IH.
Qed.

(** X16. A block that is not closed is dropped: lines of which none holds
    a closing tag write nothing and print nothing, whatever came before
    them, so a block still open at the end of the source leaves no file. *)
Theorem X16_unclosed_block_dropped
    (output_dir : path) (before after : list str) :
  forallb (λ l, negb (has_close l)) after = true →
  events output_dir (before ++ after) = events output_dir before.
Proof.
  intros Hnone.
  destruct (loop_tidy output_dir (before ++ after) before init (tidy_init _))
    as (bs & st & Hl & Ht & _); [by apply sublist_subseteq, sublist_inserts_r|].
  destruct (loop_tidy output_dir (before ++ after) after st Ht)
    as (bs' & st' & Hl' & _ & _ & Hc & _);
    [by apply sublist_subseteq, sublist_inserts_l|].
  rewrite (count_lines_none _ _ Hnone) in Hc.
  destruct bs' as [|b bs']; [|simpl in Hc; lia].
  unfold events. rewrite loop_app, Hl, Hl'. simpl. by rewrite app_nil_r.
Qed.

Lemma X16_witness :
  events ICONS ([lit "<!-- a.svg --><svg></svg>"]
                ++ [lit "<!-- b.svg -->"; lit "<svg>"; lit "<path/>"])
  = events ICONS [lit "<!-- a.svg --><svg></svg>"].
Proof.
  apply (X16_unclosed_block_dropped ICONS [lit "<!-- a.svg --><svg></svg>"]
           [lit "<!-- b.svg -->"; lit "<svg>"; lit "<path/>"]).
  vm_compute. reflexivity.
Defined.
